(** * olm session core (src/session.cpp): a shallow embedding

    The session layer of olm sits on top of four collaborators whose code
    lives in other translation units (crypto, account, message codec,
    ratchet) and on the primitive picklers.  They are taken as interfaces
    (type classes); everything in [session.cpp] itself is transcribed
    function by function below, with the session object passed explicitly
    and every operation returning the updated session next to its C++
    result. *)

From Stdlib Require Import List ZArith Lia Bool String.
From Stdlib Require Import Init.Byte Strings.Byte.
Import ListNotations.

Local Open Scope Z_scope.

(** ** Machine integers and byte buffers *)

(** [std::size_t]: an unsigned 64-bit integer, carried as a [Z]. *)
Definition size_t := Z.
Definition size_bits : Z := 64.
Definition size_modulus : Z := 2 ^ size_bits.

(** Unsigned wrap-around of [std::size_t] arithmetic. *)
Definition size_wrap (n : Z) : size_t := n mod size_modulus.

(** [std::size_t(-1)], the all-ones value returned on failure. *)
Definition SIZE_ERROR : size_t := size_wrap (-1).

(** [std::uint32_t] values (key identifiers) are carried as [Z] too; the
    session only copies and compares them. *)
Definition uint32_t := Z.

(** A (pointer, length) pair of the C++ interface is one list; its length
    is the [_length] argument. *)
Definition len (l : list byte) : size_t := Z.of_nat (List.length l).

Definition zeros (n : nat) : list byte := repeat x00 n.

(** [std::memcpy(dst, src, n)] seen from the destination array: its first
    [n] bytes are replaced by the first [n] bytes of [src]. *)
Definition memcpy (dst src : list byte) (n : nat) : list byte :=
  firstn n src ++ skipn n dst.

(** Writing [data] into [buf] at byte offset [off] (a [memcpy] through a
    pointer into the middle of a buffer).  The buffer keeps its length: a
    write that would run past its end is cut there. *)
Definition store (buf : list byte) (off : nat) (data : list byte) : list byte :=
  firstn (List.length buf)
         (firstn off buf ++ data ++ skipn (off + List.length data) buf).

(** The [n] bytes of [buf] starting at offset [off]. *)
Definition region (buf : list byte) (off n : nat) : list byte :=
  firstn n (skipn off buf).

(** [std::memcmp(a, b, n)]: the difference of the first pair of bytes that
    differ among the first [n], zero when there is none.  The session only
    compares arrays of at least [n] bytes; on a shorter list the
    comparison stops where the list ends. *)
Fixpoint memcmp (a b : list byte) (n : nat) : Z :=
  match n, a, b with
  | S n', x :: a', y :: b' =>
      if Byte.eqb x y then memcmp a' b' n'
      else Z.of_N (Byte.to_N x) - Z.of_N (Byte.to_N y)
  | _, _, _ => 0
  end.

(** ** Constants of the anonymous namespace *)

Definition KEY_LENGTH : size_t := 32.
Definition PROTOCOL_VERSION : byte := x03.

Definition ROOT_KDF_INFO : string := "OLM_ROOT".
Definition RATCHET_KDF_INFO : string := "OLM_RATCHET".
Definition CIPHER_KDF_INFO : string := "OLM_KEYS".

(** [sizeof(X) - 1] of a string literal is its length without the final
    NUL. *)
Definition sizeof_minus_1 (s : string) : size_t := Z.of_nat (String.length s).

Record CipherAesSha256 := {
  kdf_info : string;
  kdf_info_length : size_t
}.

Record KdfInfo := {
  root_info : string;
  root_info_length : size_t;
  ratchet_info : string;
  ratchet_info_length : size_t
}.

Definition OLM_CIPHER : CipherAesSha256 :=
  {| kdf_info := CIPHER_KDF_INFO;
     kdf_info_length := sizeof_minus_1 CIPHER_KDF_INFO |}.

Definition OLM_KDF_INFO : KdfInfo :=
  {| root_info := ROOT_KDF_INFO;
     root_info_length := sizeof_minus_1 ROOT_KDF_INFO;
     ratchet_info := RATCHET_KDF_INFO;
     ratchet_info_length := sizeof_minus_1 RATCHET_KDF_INFO |}.

(** ** Data model *)

Inductive ErrorCode :=
| SUCCESS
| NOT_ENOUGH_RANDOM
| OUTPUT_BUFFER_TOO_SMALL
| BAD_MESSAGE_VERSION
| BAD_MESSAGE_FORMAT
| BAD_MESSAGE_MAC
| BAD_MESSAGE_KEY_ID.

Inductive MessageType :=
| PRE_KEY
| MESSAGE.

(** [uint8_t public_key[32]]. *)
Record Curve25519PublicKey := {
  public_key : list byte
}.

(** [struct Curve25519KeyPair : public Curve25519PublicKey] with its
    [uint8_t private_key[32]]; the coercion is the C++ upcast (and the
    slicing done by an assignment to a public key). *)
Record Curve25519KeyPair := {
  key_pair_public :> Curve25519PublicKey;
  private_key : list byte
}.

(** A public key with the identifier its owner gave it: the type of the
    session's [alice_identity_key]. *)
Record IdentityKey := {
  identity_id : uint32_t;
  identity_public : Curve25519PublicKey
}.

(** A peer's advertised one-time key: identifier and public key. *)
Record RemoteKey := {
  remote_id : uint32_t;
  remote_key : Curve25519PublicKey
}.

(** A key pair of the local account with its identifier. *)
Record LocalKey := {
  local_id : uint32_t;
  local_key : Curve25519KeyPair
}.

(** [olm::unset]: overwrite an object with zero bytes. *)
Definition unset_bytes (b : list byte) : list byte := zeros (List.length b).

Definition unset_key_pair (k : Curve25519KeyPair) : Curve25519KeyPair :=
  {| key_pair_public := {| public_key := unset_bytes (public_key k) |};
     private_key := unset_bytes (private_key k) |}.

(** The decoded prekey envelope.  A pointer field with its length is an
    [option]: [None] is the null pointer, [Some l] points at the bytes [l]
    of the input. *)
Record PreKeyMessageReader := {
  has_one_time_key_id : bool;
  one_time_key_id : uint32_t;
  reader_identity_key : option (list byte);
  reader_base_key : option (list byte);
  reader_message : option (list byte)
}.

Definition field_length (p : option (list byte)) : size_t :=
  match p with
  | Some l => len l
  | None => 0
  end.

Definition field_bytes (p : option (list byte)) : list byte :=
  match p with
  | Some l => l
  | None => []
  end.

Definition non_null (p : option (list byte)) : bool :=
  match p with
  | Some _ => true
  | None => false
  end.

(** The slots of an envelope laid out in an output buffer, as offsets into
    that buffer. *)
Record PreKeyMessageWriter := {
  writer_identity_key : nat;
  writer_base_key : nat;
  writer_message : nat
}.

(** The part of a decoded ratchet message the session reads. *)
Record MessageReader := {
  reader_ratchet_key : option (list byte)
}.

(** ** Collaborators *)

(** crypto.hh *)
Class Crypto := {
  (** [generate_key(random, key)]: a key pair from 32 bytes of entropy. *)
  generate_key : list byte -> Curve25519KeyPair;
  (** [curve25519_shared_secret(our_key, their_key, output)]: the 32 bytes
      written to [output]. *)
  curve25519_shared_secret :
    Curve25519KeyPair -> Curve25519PublicKey -> list byte
}.

(** account.hh *)
Class AccountOps := {
  Account : Type;
  account_identity_key : Account -> LocalKey;
  (** [lookup_key(id)]: [None] is the null pointer. *)
  lookup_key : Account -> uint32_t -> option LocalKey
}.

(** message.hh *)
Class Codec := {
  encode_one_time_key_message_length :
    uint32_t -> size_t -> size_t -> size_t -> size_t;
  (** Lays the envelope out in the output buffer and returns the slots. *)
  encode_one_time_key_message :
    byte -> uint32_t -> size_t -> size_t -> size_t -> list byte ->
    PreKeyMessageWriter * list byte;
  decode_one_time_key_message : list byte -> PreKeyMessageReader;
  (** [decode_message(reader, input, input_length, mac_length)]. *)
  decode_message : list byte -> size_t -> MessageReader
}.

(** ratchet.hh.  The ratchet's [last_error] is a public field the session
    reads and resets; the rest of its state is opaque here. *)
Record Ratchet (RatchetState : Type) := {
  ratchet_state : RatchetState;
  ratchet_last_error : ErrorCode
}.
Arguments ratchet_state {RatchetState} _.
Arguments ratchet_last_error {RatchetState} _.

Definition set_ratchet_last_error {RS} (e : ErrorCode) (r : Ratchet RS)
  : Ratchet RS :=
  {| ratchet_state := ratchet_state r; ratchet_last_error := e |}.

Class RatchetOps (RS : Type) := {
  (** [Ratchet(kdf_info, ratchet_cipher)]. *)
  ratchet_new : KdfInfo -> CipherAesSha256 -> Ratchet RS;
  initialise_as_alice :
    Ratchet RS -> list byte -> Curve25519KeyPair -> Ratchet RS;
  initialise_as_bob :
    Ratchet RS -> list byte -> Curve25519PublicKey -> Ratchet RS;
  (** Length queries: they read the ratchet and do not write it. *)
  mac_length : Ratchet RS -> size_t;
  encrypt_output_length : Ratchet RS -> size_t -> size_t;
  ratchet_encrypt_random_length : Ratchet RS -> size_t;
  (** [encrypt(plaintext, random, output)]: the ratchet afterwards, the
      returned length and the output region afterwards. *)
  ratchet_encrypt :
    Ratchet RS -> list byte -> list byte -> list byte ->
    Ratchet RS * size_t * list byte;
  ratchet_decrypt_max_plaintext_length :
    Ratchet RS -> list byte -> Ratchet RS * size_t;
  (** [decrypt(input, plaintext)]: the ratchet afterwards, the returned
      length and the plaintext buffer afterwards. *)
  ratchet_decrypt :
    Ratchet RS -> list byte -> list byte ->
    Ratchet RS * size_t * list byte
}.

(** ** The session object *)

Record Session (RS : Type) := {
  ratchet : Ratchet RS;
  last_error : ErrorCode;
  received_message : bool;
  alice_identity_key : IdentityKey;
  alice_base_key : Curve25519PublicKey;
  bob_one_time_key_id : uint32_t
}.
Arguments ratchet {RS} _.
Arguments last_error {RS} _.
Arguments received_message {RS} _.
Arguments alice_identity_key {RS} _.
Arguments alice_base_key {RS} _.
Arguments bob_one_time_key_id {RS} _.

Section FieldUpdates.
Context {RS : Type}.

Definition set_ratchet (r : Ratchet RS) (s : Session RS) : Session RS :=
  {| ratchet := r;
     last_error := last_error s;
     received_message := received_message s;
     alice_identity_key := alice_identity_key s;
     alice_base_key := alice_base_key s;
     bob_one_time_key_id := bob_one_time_key_id s |}.

Definition set_last_error (e : ErrorCode) (s : Session RS) : Session RS :=
  {| ratchet := ratchet s;
     last_error := e;
     received_message := received_message s;
     alice_identity_key := alice_identity_key s;
     alice_base_key := alice_base_key s;
     bob_one_time_key_id := bob_one_time_key_id s |}.

Definition set_received_message (b : bool) (s : Session RS) : Session RS :=
  {| ratchet := ratchet s;
     last_error := last_error s;
     received_message := b;
     alice_identity_key := alice_identity_key s;
     alice_base_key := alice_base_key s;
     bob_one_time_key_id := bob_one_time_key_id s |}.

Definition set_alice_identity_key (k : IdentityKey) (s : Session RS)
  : Session RS :=
  {| ratchet := ratchet s;
     last_error := last_error s;
     received_message := received_message s;
     alice_identity_key := k;
     alice_base_key := alice_base_key s;
     bob_one_time_key_id := bob_one_time_key_id s |}.

Definition set_alice_base_key (k : Curve25519PublicKey) (s : Session RS)
  : Session RS :=
  {| ratchet := ratchet s;
     last_error := last_error s;
     received_message := received_message s;
     alice_identity_key := alice_identity_key s;
     alice_base_key := k;
     bob_one_time_key_id := bob_one_time_key_id s |}.

Definition set_bob_one_time_key_id (i : uint32_t) (s : Session RS)
  : Session RS :=
  {| ratchet := ratchet s;
     last_error := last_error s;
     received_message := received_message s;
     alice_identity_key := alice_identity_key s;
     alice_base_key := alice_base_key s;
     bob_one_time_key_id := i |}.

(** Assignments to the two members of [alice_identity_key]. *)
Definition set_alice_identity_id (i : uint32_t) (s : Session RS)
  : Session RS :=
  set_alice_identity_key
    {| identity_id := i;
       identity_public := identity_public (alice_identity_key s) |} s.

Definition set_alice_identity_public (k : Curve25519PublicKey)
  (s : Session RS) : Session RS :=
  set_alice_identity_key
    {| identity_id := identity_id (alice_identity_key s);
       identity_public := k |} s.

End FieldUpdates.

(** ** Session operations *)

Section SessionOperations.
Context {RS : Type} {crypto : Crypto} {account_ops : AccountOps}
        {codec : Codec} {ratchet_ops : RatchetOps RS}.

(** [Session::Session()].  The constructor initialises the ratchet,
    [last_error], [received_message] and [bob_one_time_key_id]; the two
    key members are left with whatever the storage held, which is what
    the two arguments stand for. *)
Definition Session_new (indeterminate_identity_key : IdentityKey)
  (indeterminate_base_key : Curve25519PublicKey) : Session RS :=
  {| ratchet := ratchet_new OLM_KDF_INFO OLM_CIPHER;
     last_error := SUCCESS;
     received_message := false;
     alice_identity_key := indeterminate_identity_key;
     alice_base_key := indeterminate_base_key;
     bob_one_time_key_id := 0 |}.

Definition new_outbound_session_random_length : size_t :=
  size_wrap (KEY_LENGTH * 2).

(** The local buffers of [new_outbound_session] that hold secrets, as
    they are when the function returns. *)
Record OutboundLocals := {
  out_base_key : Curve25519KeyPair;
  out_ratchet_key : Curve25519KeyPair;
  out_shared_secret : list byte
}.

(** The 96-byte [shared_secret] array of [new_outbound_session] after
    the three calls to [curve25519_shared_secret], each writing 32 bytes
    at offsets 0, 32 and 64.  The array starts out indeterminate; it is
    taken zero-filled here. *)
Definition outbound_shared_secret (local_identity base_key : Curve25519KeyPair)
  (identity_key one_time_key : Curve25519PublicKey) : list byte :=
  let shared_secret := zeros 96 in
  let shared_secret :=
    store shared_secret 0
          (curve25519_shared_secret local_identity one_time_key) in
  let shared_secret :=
    store shared_secret 32
          (curve25519_shared_secret base_key identity_key) in
  let shared_secret :=
    store shared_secret 64
          (curve25519_shared_secret base_key one_time_key) in
  shared_secret.

(** [Session::new_outbound_session], returning the session, the result
    and the secret-holding locals at the point of return ([None] when it
    returns before they exist). *)
Definition new_outbound_session_exit (s : Session RS)
  (local_account : Account) (identity_key : Curve25519PublicKey)
  (one_time_key : RemoteKey) (random : list byte)
  : Session RS * size_t * option OutboundLocals :=
  if len random <? new_outbound_session_random_length then
    (set_last_error NOT_ENOUGH_RANDOM s, SIZE_ERROR, None)
  else
    let base_key := generate_key (region random 0 32) in
    let ratchet_key := generate_key (region random 32 32) in
    let s := set_received_message false s in
    let s := set_alice_identity_id
               (local_id (account_identity_key local_account)) s in
    let s := set_alice_identity_public
               (local_key (account_identity_key local_account)) s in
    let s := set_alice_base_key base_key s in
    let s := set_bob_one_time_key_id (remote_id one_time_key) s in
    let shared_secret :=
      outbound_shared_secret
        (local_key (account_identity_key local_account)) base_key
        identity_key (remote_key one_time_key) in
    let s := set_ratchet
               (initialise_as_alice (ratchet s) (firstn 96 shared_secret)
                                    ratchet_key) s in
    let base_key := unset_key_pair base_key in
    let ratchet_key := unset_key_pair ratchet_key in
    let shared_secret := unset_bytes shared_secret in
    (s, 0,
     Some {| out_base_key := base_key;
             out_ratchet_key := ratchet_key;
             out_shared_secret := shared_secret |}).

Definition new_outbound_session (s : Session RS) (local_account : Account)
  (identity_key : Curve25519PublicKey) (one_time_key : RemoteKey)
  (random : list byte) : Session RS * size_t :=
  fst (new_outbound_session_exit s local_account identity_key one_time_key
                                 random).

Definition check_message_fields (reader : PreKeyMessageReader) : bool :=
  let ok := true in
  let ok := ok && non_null (reader_identity_key reader) in
  let ok := ok && (field_length (reader_identity_key reader) =? KEY_LENGTH) in
  let ok := ok && non_null (reader_message reader) in
  let ok := ok && non_null (reader_base_key reader) in
  let ok := ok && (field_length (reader_base_key reader) =? KEY_LENGTH) in
  let ok := ok && has_one_time_key_id reader in
  ok.

(** The 96-byte [shared_secret] array of [new_inbound_session]. *)
Definition inbound_shared_secret (bob_one_time_key local_identity : Curve25519KeyPair)
  (alice_identity alice_base : Curve25519PublicKey) : list byte :=
  let shared_secret := zeros 96 in
  let shared_secret :=
    store shared_secret 0
          (curve25519_shared_secret bob_one_time_key alice_identity) in
  let shared_secret :=
    store shared_secret 32
          (curve25519_shared_secret local_identity alice_base) in
  let shared_secret :=
    store shared_secret 64
          (curve25519_shared_secret bob_one_time_key alice_base) in
  shared_secret.

(** The secret-holding local of [new_inbound_session] at the point of
    return. *)
Record InboundLocals := {
  in_shared_secret : list byte
}.

(** [Session::new_inbound_session], with the locals at return as for the
    outbound case. *)
Definition new_inbound_session_exit (s : Session RS)
  (local_account : Account) (one_time_key_message : list byte)
  : Session RS * size_t * option InboundLocals :=
  let reader := decode_one_time_key_message one_time_key_message in
  if negb (check_message_fields reader) then
    (set_last_error BAD_MESSAGE_FORMAT s, SIZE_ERROR, None)
  else
    let message_reader :=
      decode_message (field_bytes (reader_message reader))
                     (mac_length (ratchet s)) in
    if negb (non_null (reader_ratchet_key message_reader))
       || negb (field_length (reader_ratchet_key message_reader)
                =? KEY_LENGTH) then
      (set_last_error BAD_MESSAGE_FORMAT s, SIZE_ERROR, None)
    else
      let s := set_alice_identity_public
                 {| public_key :=
                      memcpy (public_key
                                (identity_public (alice_identity_key s)))
                             (field_bytes (reader_identity_key reader))
                             32 |} s in
      let s := set_alice_base_key
                 {| public_key :=
                      memcpy (public_key (alice_base_key s))
                             (field_bytes (reader_base_key reader)) 32 |}
                 s in
      let s := set_bob_one_time_key_id (one_time_key_id reader) s in
      let ratchet_key :=
        {| public_key :=
             memcpy (zeros 32)
                    (field_bytes (reader_ratchet_key message_reader))
                    32 |} in
      match lookup_key local_account (bob_one_time_key_id s) with
      | None => (set_last_error BAD_MESSAGE_KEY_ID s, SIZE_ERROR, None)
      | Some bob_one_time_key =>
          let shared_secret :=
            inbound_shared_secret
              (local_key bob_one_time_key)
              (local_key (account_identity_key local_account))
              (identity_public (alice_identity_key s))
              (alice_base_key s) in
          let s := set_ratchet
                     (initialise_as_bob (ratchet s)
                                        (firstn 96 shared_secret)
                                        ratchet_key) s in
          (s, 0, Some {| in_shared_secret := shared_secret |})
      end.

Definition new_inbound_session (s : Session RS) (local_account : Account)
  (one_time_key_message : list byte) : Session RS * size_t :=
  fst (new_inbound_session_exit s local_account one_time_key_message).

(** [Session::matches_inbound_session]; the member function is not
    [const], so the session is returned with the answer. *)
Definition matches_inbound_session (s : Session RS)
  (one_time_key_message : list byte) : Session RS * bool :=
  let reader := decode_one_time_key_message one_time_key_message in
  if negb (check_message_fields reader) then (s, false)
  else
    let same := true in
    let same :=
      same && (0 =? memcmp (field_bytes (reader_identity_key reader))
                           (public_key
                              (identity_public (alice_identity_key s)))
                           (Z.to_nat KEY_LENGTH)) in
    let same :=
      same && (0 =? memcmp (field_bytes (reader_base_key reader))
                           (public_key (alice_base_key s))
                           (Z.to_nat KEY_LENGTH)) in
    let same :=
      same && (one_time_key_id reader =? bob_one_time_key_id s) in
    (s, same).

Definition encrypt_message_type (s : Session RS) : MessageType :=
  if received_message s then MESSAGE else PRE_KEY.

Definition encrypt_message_length (s : Session RS)
  (plaintext_length : size_t) : size_t :=
  let message_length := encrypt_output_length (ratchet s) plaintext_length in
  if received_message s then message_length
  else
    encode_one_time_key_message_length
      (bob_one_time_key_id s) KEY_LENGTH KEY_LENGTH message_length.

Definition encrypt_random_length (s : Session RS) : size_t :=
  ratchet_encrypt_random_length (ratchet s).

(** [Session::encrypt]: session, result and the [message] buffer
    afterwards. *)
Definition encrypt (s : Session RS) (plaintext random message : list byte)
  : Session RS * size_t * list byte :=
  if len message <? encrypt_message_length s (len plaintext) then
    (set_last_error OUTPUT_BUFFER_TOO_SMALL s, SIZE_ERROR, message)
  else
    let message_body_length :=
      encrypt_output_length (ratchet s) (len plaintext) in
    let '(message_body, message) :=
      if received_message s then (0%nat, message)
      else
        let '(writer, message) :=
          encode_one_time_key_message
            PROTOCOL_VERSION (bob_one_time_key_id s)
            KEY_LENGTH KEY_LENGTH message_body_length message in
        let message :=
          store message (writer_identity_key writer)
                (firstn (Z.to_nat KEY_LENGTH)
                        (public_key
                           (identity_public (alice_identity_key s)))) in
        let message :=
          store message (writer_base_key writer)
                (firstn (Z.to_nat KEY_LENGTH)
                        (public_key (alice_base_key s))) in
        (writer_message writer, message) in
    let '(r, result, body) :=
      ratchet_encrypt (ratchet s) plaintext random
        (region message message_body (Z.to_nat message_body_length)) in
    let message := store message message_body body in
    let s := set_ratchet r s in
    if result =? SIZE_ERROR then
      let s := set_last_error (ratchet_last_error (ratchet s)) s in
      let s := set_ratchet (set_ratchet_last_error SUCCESS (ratchet s)) s in
      (s, result, message)
    else (s, result, message).

(** The common prologue of the two decrypt operations: the bytes handed
    to the ratchet, or [None] when a prekey envelope has no message. *)
Definition message_body_of (message_type : MessageType)
  (message : list byte) : option (list byte) :=
  match message_type with
  | MESSAGE => Some message
  | PRE_KEY =>
      reader_message (decode_one_time_key_message message)
  end.

Definition decrypt_max_plaintext_length (s : Session RS)
  (message_type : MessageType) (message : list byte)
  : Session RS * size_t :=
  match message_body_of message_type message with
  | None => (set_last_error BAD_MESSAGE_FORMAT s, SIZE_ERROR)
  | Some message_body =>
      let '(r, result) :=
        ratchet_decrypt_max_plaintext_length (ratchet s) message_body in
      let s := set_ratchet r s in
      if result =? SIZE_ERROR then
        let s := set_last_error (ratchet_last_error (ratchet s)) s in
        let s := set_ratchet (set_ratchet_last_error SUCCESS (ratchet s)) s in
        (s, result)
      else (s, result)
  end.

(** [Session::decrypt]: session, result and the [plaintext] buffer
    afterwards. *)
Definition decrypt (s : Session RS) (message_type : MessageType)
  (message plaintext : list byte) : Session RS * size_t * list byte :=
  match message_body_of message_type message with
  | None => (set_last_error BAD_MESSAGE_FORMAT s, SIZE_ERROR, plaintext)
  | Some message_body =>
      let '(r, result, plaintext) :=
        ratchet_decrypt (ratchet s) message_body plaintext in
      let s := set_ratchet r s in
      if result =? SIZE_ERROR then
        let s := set_last_error (ratchet_last_error (ratchet s)) s in
        let s := set_ratchet (set_ratchet_last_error SUCCESS (ratchet s)) s in
        (s, result, plaintext)
      else
        let s := set_received_message true s in
        (s, result, plaintext)
  end.

End SessionOperations.

(** ** Persistence *)

(** The overloads [olm::pickle_length], [olm::pickle] and [olm::unpickle]
    of pickle.hh at one type.  [pickle v] is the byte string written at
    [pos] (the returned pointer is [pos] advanced by its length);
    [unpickle bytes v0] reads from the cursor [[pos, end)] given as [bytes]
    into an object currently holding [v0], and returns what is left of the
    cursor with the object. *)
Class Pickle (T : Type) := {
  pickle_length : T -> size_t;
  pickle : T -> list byte;
  unpickle : list byte -> T -> list byte * T
}.

Section SessionPickle.
Context {RS : Type}
        {pickle_bool : Pickle bool}
        {pickle_uint32 : Pickle uint32_t}
        {pickle_public_key : Pickle Curve25519PublicKey}
        {pickle_ratchet : Pickle (Ratchet RS)}.

(** [olm::pickle_length(Session const &)] *)
Definition pickle_length_session (value : Session RS) : size_t :=
  let length := 0 in
  let length :=
    size_wrap (length + pickle_length (received_message value)) in
  let length :=
    size_wrap (length
               + pickle_length (T := uint32_t)
                   (identity_id (alice_identity_key value))) in
  let length :=
    size_wrap (length
               + pickle_length (identity_public (alice_identity_key value)))
  in
  let length := size_wrap (length + pickle_length (alice_base_key value)) in
  let length :=
    size_wrap (length
               + pickle_length (T := uint32_t) (bob_one_time_key_id value))
  in
  let length := size_wrap (length + pickle_length (ratchet value)) in
  length.

(** [olm::pickle(pos, Session const &)]: the bytes written from [pos]
    on. *)
Definition pickle_session (value : Session RS) : list byte :=
  let pos := [] in
  let pos := pos ++ pickle (received_message value) in
  let pos :=
    pos ++ pickle (T := uint32_t) (identity_id (alice_identity_key value)) in
  let pos := pos ++ pickle (identity_public (alice_identity_key value)) in
  let pos := pos ++ pickle (alice_base_key value) in
  let pos := pos ++ pickle (T := uint32_t) (bob_one_time_key_id value) in
  let pos := pos ++ pickle (ratchet value) in
  pos.

(** [olm::unpickle(pos, end, Session &)] *)
Definition unpickle_session (pos : list byte) (value : Session RS)
  : list byte * Session RS :=
  let '(pos, b) := unpickle pos (received_message value) in
  let value := set_received_message b value in
  let '(pos, i) :=
    unpickle (T := uint32_t) pos (identity_id (alice_identity_key value)) in
  let value := set_alice_identity_id i value in
  let '(pos, k) :=
    unpickle pos (identity_public (alice_identity_key value)) in
  let value := set_alice_identity_public k value in
  let '(pos, k) := unpickle pos (alice_base_key value) in
  let value := set_alice_base_key k value in
  let '(pos, i) :=
    unpickle (T := uint32_t) pos (bob_one_time_key_id value) in
  let value := set_bob_one_time_key_id i value in
  let '(pos, r) := unpickle pos (ratchet value) in
  let value := set_ratchet r value in
  (pos, value).

End SessionPickle.

(** What the C++ types guarantee of the values held in a session: a
    [uint32_t] is below [2^32] and a key array has 32 bytes. *)
Definition uint32_range (n : uint32_t) : Prop := 0 <= n < 2 ^ 32.

Definition key_sized (k : Curve25519PublicKey) : Prop :=
  List.length (public_key k) = 32%nat.

Definition session_keys_sized {RS} (s : Session RS) : Prop :=
  key_sized (identity_public (alice_identity_key s))
  /\ key_sized (alice_base_key s).

Definition session_well_typed {RS} (ratchet_well_typed : Ratchet RS -> Prop)
  (s : Session RS) : Prop :=
  uint32_range (identity_id (alice_identity_key s))
  /\ key_sized (identity_public (alice_identity_key s))
  /\ key_sized (alice_base_key s)
  /\ uint32_range (bob_one_time_key_id s)
  /\ ratchet_well_typed (ratchet s).

(** The contract of a pickler on the well-typed values of its type. *)
Class PickleLaws {T : Type} (P : Pickle T) (well_typed : T -> Prop) := {
  unpickle_pickle :
    forall (v v0 : T) (rest : list byte),
      well_typed v -> unpickle (pickle v ++ rest) v0 = (rest, v);
  pickle_length_pickle :
    forall v : T, well_typed v -> pickle_length v = len (pickle v)
}.

(** ** Sequences of calls on a live session *)

(** The operations a host performs on a session after it has been
    initiated. *)
Inductive Call :=
| CallEncryptMessageType
| CallEncryptMessageLength (plaintext_length : size_t)
| CallEncryptRandomLength
| CallMatchesInboundSession (one_time_key_message : list byte)
| CallEncrypt (plaintext random message : list byte)
| CallDecryptMaxPlaintextLength (message_type : MessageType)
                                (message : list byte)
| CallDecrypt (message_type : MessageType) (message plaintext : list byte).

Section Calls.
Context {RS : Type} {codec : Codec} {ratchet_ops : RatchetOps RS}.

(** The session after a call. *)
Definition after_call (s : Session RS) (c : Call) : Session RS :=
  match c with
  | CallEncryptMessageType => s
  | CallEncryptMessageLength _ => s
  | CallEncryptRandomLength => s
  | CallMatchesInboundSession m => fst (matches_inbound_session s m)
  | CallEncrypt p r m => fst (fst (encrypt s p r m))
  | CallDecryptMaxPlaintextLength t m =>
      fst (decrypt_max_plaintext_length s t m)
  | CallDecrypt t m p => fst (fst (decrypt s t m p))
  end.

(** Whether the call is a [decrypt] that returns a length rather than
    the error value. *)
Definition decrypt_succeeds (s : Session RS) (c : Call) : bool :=
  match c with
  | CallDecrypt t m p => negb (snd (fst (decrypt s t m p)) =? SIZE_ERROR)
  | _ => false
  end.

Fixpoint after_calls (s : Session RS) (calls : list Call) : Session RS :=
  match calls with
  | [] => s
  | c :: calls => after_calls (after_call s c) calls
  end.

Fixpoint some_decrypt_succeeded (s : Session RS) (calls : list Call)
  : bool :=
  match calls with
  | [] => false
  | c :: calls =>
      decrypt_succeeds s c || some_decrypt_succeeded (after_call s c) calls
  end.

End Calls.

(** ** Every operation of the session interface *)

Section Operations.
Context {RS : Type} {crypto : Crypto} {account_ops : AccountOps}
        {codec : Codec} {ratchet_ops : RatchetOps RS}.

Inductive Operation :=
| NewOutboundSession (local_account : Account)
                     (identity_key : Curve25519PublicKey)
                     (one_time_key : RemoteKey) (random : list byte)
| NewInboundSession (local_account : Account)
                    (one_time_key_message : list byte)
| LiveCall (c : Call).

(** The [std::size_t] a call returns, for the member functions that
    return one. *)
Definition call_result (s : Session RS) (c : Call) : option size_t :=
  match c with
  | CallEncryptMessageType => None
  | CallEncryptMessageLength n => Some (encrypt_message_length s n)
  | CallEncryptRandomLength => Some (encrypt_random_length s)
  | CallMatchesInboundSession _ => None
  | CallEncrypt p r m => Some (snd (fst (encrypt s p r m)))
  | CallDecryptMaxPlaintextLength t m =>
      Some (snd (decrypt_max_plaintext_length s t m))
  | CallDecrypt t m p => Some (snd (fst (decrypt s t m p)))
  end.

(** The session after an operation and the [std::size_t] it returned. *)
Definition perform (s : Session RS) (op : Operation)
  : Session RS * option size_t :=
  match op with
  | NewOutboundSession a k o r =>
      let '(s, n) := new_outbound_session s a k o r in (s, Some n)
  | NewInboundSession a m =>
      let '(s, n) := new_inbound_session s a m in (s, Some n)
  | LiveCall c => (after_call s c, call_result s c)
  end.

(** Whether the operation gets as far as calling [encrypt], [decrypt] or
    [decrypt_max_plaintext_length] of the ratchet, that is, passes the
    session's own checks before the call. *)
Definition reaches_ratchet (s : Session RS) (op : Operation) : bool :=
  match op with
  | LiveCall (CallEncrypt p r m) =>
      negb (len m <? encrypt_message_length s (len p))
  | LiveCall (CallDecryptMaxPlaintextLength t m) =>
      non_null (message_body_of t m)
  | LiveCall (CallDecrypt t m p) => non_null (message_body_of t m)
  | _ => false
  end.

Definition is_new_inbound_session (op : Operation) : bool :=
  match op with
  | NewInboundSession _ _ => true
  | _ => false
  end.

End Operations.
Arguments Operation {account_ops}.

(** The three handshake identifiers of a session. *)
Definition handshake_identifiers {RS} (s : Session RS)
  : list byte * list byte * uint32_t :=
  (public_key (identity_public (alice_identity_key s)),
   public_key (alice_base_key s),
   bob_one_time_key_id s).

(** A buffer that holds nothing but zero bytes. *)
Definition all_zero (b : list byte) : Prop := b = zeros (List.length b).

(** The contract of [curve25519_shared_secret]: it writes 32 bytes. *)
Definition shared_secret_is_32_bytes {crypto : Crypto} : Prop :=
  forall (our_key : Curve25519KeyPair) (their_key : Curve25519PublicKey),
    List.length (curve25519_shared_secret our_key their_key) = 32%nat.

(** ** Example collaborators

    Small executable stand-ins for the collaborators, used to run the
    session operations on concrete bytes.  Nothing below is olm's
    cryptography: the "curve" is bytewise exclusive-or, chosen because it
    has the one algebraic property the handshake relies on (both parties
    compute the same shared secret). *)

Module Example.

Definition byte_of_Z (n : Z) : byte :=
  match Byte.of_N (Z.to_N (n mod 256)) with
  | Some b => b
  | None => x00
  end.

Definition Z_of_byte (b : byte) : Z := Z.of_N (Byte.to_N b).

Definition xor_byte (a b : byte) : byte :=
  byte_of_Z (Z.lxor (Z_of_byte a) (Z_of_byte b)).

Fixpoint xor_bytes (a b : list byte) : list byte :=
  match a, b with
  | x :: a', y :: b' => xor_byte x y :: xor_bytes a' b'
  | _, _ => []
  end.

(** Exactly [n] bytes: [l] cut or zero-padded. *)
Definition fit (n : nat) (l : list byte) : list byte :=
  firstn n (l ++ zeros n).

(** The public key of a private scalar is the scalar itself; the shared
    secret of a private and a public key is their exclusive-or. *)
#[export] Instance crypto : Crypto := {|
  generate_key random :=
    {| key_pair_public := {| public_key := fit 32 random |};
       private_key := fit 32 random |};
  curve25519_shared_secret our_key their_key :=
    fit 32 (xor_bytes (private_key our_key) (public_key their_key))
|}.

(** An account: its identity key and its one-time keys. *)
Record ExampleAccount := {
  example_identity_key : LocalKey;
  example_one_time_keys : list LocalKey
}.

#[export] Instance account_ops : AccountOps := {|
  Account := ExampleAccount;
  account_identity_key := example_identity_key;
  lookup_key a i :=
    find (fun k => local_id k =? i) (example_one_time_keys a)
|}.

(** Modelled from the spec: the prekey envelope of message.hh, whose
    code is not part of session.cpp.  Fields in order: protocol version
    (one byte, [0x03]), one-time-key id (varint), base key, identity key
    and message, each prefixed by its length as a little-endian base-128
    varint. *)
Fixpoint encode_varint_fuel (fuel : nat) (n : Z) : list byte :=
  match fuel with
  | O => []
  | S fuel' =>
      if n <? 128 then [byte_of_Z n]
      else byte_of_Z (128 + n mod 128) :: encode_varint_fuel fuel' (n / 128)
  end.

Definition encode_varint (n : Z) : list byte := encode_varint_fuel 10 n.

Fixpoint decode_varint (l : list byte) (shift acc : Z)
  : option (Z * list byte) :=
  match l with
  | [] => None
  | b :: rest =>
      let acc := acc + Z.shiftl (Z.land (Z_of_byte b) 127) shift in
      if Z_of_byte b <? 128 then Some (acc, rest)
      else decode_varint rest (shift + 7) acc
  end.

Definition decode_field (l : list byte) : option (list byte * list byte) :=
  match decode_varint l 0 0 with
  | Some (n, rest) =>
      if n <=? len rest then
        Some (firstn (Z.to_nat n) rest, skipn (Z.to_nat n) rest)
      else None
  | None => None
  end.

Definition empty_reader : PreKeyMessageReader :=
  {| has_one_time_key_id := false;
     one_time_key_id := 0;
     reader_identity_key := None;
     reader_base_key := None;
     reader_message := None |}.

Definition example_decode_one_time_key_message (input : list byte)
  : PreKeyMessageReader :=
  match input with
  | version :: rest =>
      if Byte.eqb version PROTOCOL_VERSION then
        match decode_varint rest 0 0 with
        | Some (i, rest) =>
            match decode_field rest with
            | Some (base, rest) =>
                match decode_field rest with
                | Some (identity_bytes, rest) =>
                    match decode_field rest with
                    | Some (body, _) =>
                        {| has_one_time_key_id := true;
                           one_time_key_id := i;
                           reader_identity_key := Some identity_bytes;
                           reader_base_key := Some base;
                           reader_message := Some body |}
                    | None => empty_reader
                    end
                | None => empty_reader
                end
            | None => empty_reader
            end
        | None => empty_reader
        end
      else empty_reader
  | [] => empty_reader
  end.

Definition example_encode_length (i : uint32_t)
  (identity_key_length base_key_length message_length : size_t) : size_t :=
  1 + len (encode_varint i)
  + len (encode_varint base_key_length) + base_key_length
  + len (encode_varint identity_key_length) + identity_key_length
  + len (encode_varint message_length) + message_length.

Definition example_encode_one_time_key_message (version : byte)
  (i : uint32_t) (identity_key_length base_key_length message_length : size_t)
  (output : list byte) : PreKeyMessageWriter * list byte :=
  let head := version :: encode_varint i ++ encode_varint base_key_length in
  let base_slot := List.length head in
  let output := store output 0 head in
  let identity_head := encode_varint identity_key_length in
  let identity_at := (base_slot + Z.to_nat base_key_length)%nat in
  let output := store output identity_at identity_head in
  let identity_slot := (identity_at + List.length identity_head)%nat in
  let message_head := encode_varint message_length in
  let message_at := (identity_slot + Z.to_nat identity_key_length)%nat in
  let output := store output message_at message_head in
  let message_slot := (message_at + List.length message_head)%nat in
  ({| writer_identity_key := identity_slot;
      writer_base_key := base_slot;
      writer_message := message_slot |}, output).

(** The example ratchet message: the sender's 32-byte ratchet key, the
    payload and a trailing MAC of [mac_length] bytes. *)
Definition example_decode_message (input : list byte) (mac_length : size_t)
  : MessageReader :=
  if len input <? 32 + mac_length then {| reader_ratchet_key := None |}
  else {| reader_ratchet_key := Some (firstn 32 input) |}.

#[export] Instance codec : Codec := {|
  encode_one_time_key_message_length := example_encode_length;
  encode_one_time_key_message := example_encode_one_time_key_message;
  decode_one_time_key_message := example_decode_one_time_key_message;
  decode_message := example_decode_message
|}.

(** The example ratchet keeps the handshake secret, the current ratchet
    key and a message counter.  Its "cipher" copies the plaintext and
    appends the first eight bytes of the secret as MAC. *)
Record RatchetState := {
  secret : list byte;
  current_ratchet_key : list byte;
  counter : Z
}.

Definition example_mac_length : size_t := 8.

Definition advance (r : Ratchet RatchetState) : Ratchet RatchetState :=
  {| ratchet_state :=
       {| secret := secret (ratchet_state r);
          current_ratchet_key := current_ratchet_key (ratchet_state r);
          counter := counter (ratchet_state r) + 1 |};
     ratchet_last_error := ratchet_last_error r |}.

Definition example_mac (r : Ratchet RatchetState) : list byte :=
  fit 8 (secret (ratchet_state r)).

Definition example_encrypt (r : Ratchet RatchetState)
  (plaintext random output : list byte)
  : Ratchet RatchetState * size_t * list byte :=
  let body :=
    fit 32 (current_ratchet_key (ratchet_state r)) ++ plaintext
    ++ example_mac r in
  if len output <? len body then
    (set_ratchet_last_error OUTPUT_BUFFER_TOO_SMALL r, SIZE_ERROR, output)
  else (advance r, len body, store output 0 body).

Definition example_decrypt_max_plaintext_length (r : Ratchet RatchetState)
  (input : list byte) : Ratchet RatchetState * size_t :=
  if len input <? 32 + example_mac_length then
    (set_ratchet_last_error BAD_MESSAGE_FORMAT r, SIZE_ERROR)
  else (r, len input - 32 - example_mac_length).

Definition bytes_eqb (a b : list byte) : bool :=
  (List.length a =? List.length b)%nat
  && (memcmp a b (List.length a) =? 0).

Definition example_decrypt (r : Ratchet RatchetState)
  (input plaintext : list byte)
  : Ratchet RatchetState * size_t * list byte :=
  if len input <? 32 + example_mac_length then
    (set_ratchet_last_error BAD_MESSAGE_FORMAT r, SIZE_ERROR, plaintext)
  else
    let payload := (List.length input - 40)%nat in
    let body := region input 32 payload in
    let mac := skipn (32 + payload) input in
    if negb (bytes_eqb mac (example_mac r)) then
      (set_ratchet_last_error BAD_MESSAGE_MAC r, SIZE_ERROR, plaintext)
    else if len plaintext <? len body then
      (set_ratchet_last_error OUTPUT_BUFFER_TOO_SMALL r, SIZE_ERROR,
       plaintext)
    else (advance r, len body, store plaintext 0 body).

#[export] Instance ratchet_ops : RatchetOps RatchetState := {|
  ratchet_new _ _ :=
    {| ratchet_state :=
         {| secret := []; current_ratchet_key := []; counter := 0 |};
       ratchet_last_error := SUCCESS |};
  initialise_as_alice r shared_secret ratchet_key :=
    {| ratchet_state :=
         {| secret := shared_secret;
            current_ratchet_key := public_key ratchet_key;
            counter := 0 |};
       ratchet_last_error := ratchet_last_error r |};
  initialise_as_bob r shared_secret ratchet_key :=
    {| ratchet_state :=
         {| secret := shared_secret;
            current_ratchet_key := public_key ratchet_key;
            counter := 0 |};
       ratchet_last_error := ratchet_last_error r |};
  mac_length _ := example_mac_length;
  encrypt_output_length _ plaintext_length :=
    32 + plaintext_length + example_mac_length;
  ratchet_encrypt_random_length _ := 0;
  ratchet_encrypt := example_encrypt;
  ratchet_decrypt_max_plaintext_length :=
    example_decrypt_max_plaintext_length;
  ratchet_decrypt := example_decrypt
|}.

(** The example picklers: a [bool] is one byte, a [uint32_t] four bytes
    (most significant first), a public key its 32 bytes, an error code
    one byte. *)
#[export] Instance pickle_bool : Pickle bool := {|
  pickle_length (_ : bool) := 1;
  pickle (b : bool) := [if b then x01 else x00];
  unpickle (pos : list byte) (v0 : bool) :=
    match pos with
    | b :: rest => (rest, negb (Byte.eqb b x00))
    | [] => ([], v0)
    end
|}.

Definition uint32_bytes (n : uint32_t) : list byte :=
  [byte_of_Z (n / 256 / 256 / 256); byte_of_Z (n / 256 / 256);
   byte_of_Z (n / 256); byte_of_Z n].

#[export] Instance pickle_uint32 : Pickle uint32_t := {|
  pickle_length (_ : uint32_t) := 4;
  pickle := uint32_bytes;
  unpickle (pos : list byte) (v0 : uint32_t) :=
    match pos with
    | b3 :: b2 :: b1 :: b0 :: rest =>
        (rest,
         ((Z_of_byte b3 * 256 + Z_of_byte b2) * 256 + Z_of_byte b1) * 256
         + Z_of_byte b0)
    | _ => ([], v0)
    end
|}.

#[export] Instance pickle_public_key : Pickle Curve25519PublicKey := {|
  pickle_length (_ : Curve25519PublicKey) := 32;
  pickle (k : Curve25519PublicKey) := public_key k;
  unpickle (pos : list byte) (v0 : Curve25519PublicKey) :=
    if (32 <=? List.length pos)%nat then
      (skipn 32 pos, {| public_key := firstn 32 pos |})
    else ([], v0)
|}.

Definition error_byte (e : ErrorCode) : byte :=
  match e with
  | SUCCESS => x00
  | NOT_ENOUGH_RANDOM => x01
  | OUTPUT_BUFFER_TOO_SMALL => x02
  | BAD_MESSAGE_VERSION => x03
  | BAD_MESSAGE_FORMAT => x04
  | BAD_MESSAGE_MAC => x05
  | BAD_MESSAGE_KEY_ID => x06
  end.

Definition byte_error (b : byte) : ErrorCode :=
  match b with
  | x01 => NOT_ENOUGH_RANDOM
  | x02 => OUTPUT_BUFFER_TOO_SMALL
  | x03 => BAD_MESSAGE_VERSION
  | x04 => BAD_MESSAGE_FORMAT
  | x05 => BAD_MESSAGE_MAC
  | x06 => BAD_MESSAGE_KEY_ID
  | _ => SUCCESS
  end.

(** The example ratchet is pickled as its 96-byte secret, its 32-byte
    ratchet key, its counter and its error code. *)
Definition pickle_example_ratchet (r : Ratchet RatchetState) : list byte :=
  secret (ratchet_state r) ++ current_ratchet_key (ratchet_state r)
  ++ uint32_bytes (counter (ratchet_state r))
  ++ [error_byte (ratchet_last_error r)].

Definition unpickle_example_ratchet (pos : list byte)
  (v0 : Ratchet RatchetState) : list byte * Ratchet RatchetState :=
  if (133 <=? List.length pos)%nat then
    let '(tail, n) := unpickle (T := uint32_t) (skipn 128 pos) 0 in
    (skipn 1 tail,
     {| ratchet_state :=
          {| secret := firstn 96 pos;
             current_ratchet_key := region pos 96 32;
             counter := n |};
        ratchet_last_error := byte_error (hd x00 tail) |})
  else ([], v0).

#[export] Instance pickle_ratchet : Pickle (Ratchet RatchetState) := {|
  pickle_length (_ : Ratchet RatchetState) := 133;
  pickle := pickle_example_ratchet;
  unpickle := unpickle_example_ratchet
|}.

Definition example_ratchet_well_typed (r : Ratchet RatchetState) : Prop :=
  List.length (secret (ratchet_state r)) = 96%nat
  /\ List.length (current_ratchet_key (ratchet_state r)) = 32%nat
  /\ uint32_range (counter (ratchet_state r)).

(** *** A concrete exchange

    Alice (identity key [0a..0a], id 1) opens a session to Bob (identity
    key [0b..0b], one-time key [0c..0c] with id 42) with the 64 random
    bytes [05..05] and encrypts "hello". *)
Definition key_of (b : byte) : Curve25519KeyPair := generate_key (repeat b 32).

Definition alice_account : ExampleAccount :=
  {| example_identity_key := {| local_id := 1; local_key := key_of x0a |};
     example_one_time_keys := [] |}.

Definition bob_one_time_key : LocalKey :=
  {| local_id := 42; local_key := key_of x0c |}.

Definition bob_account : ExampleAccount :=
  {| example_identity_key := {| local_id := 7; local_key := key_of x0b |};
     example_one_time_keys := [bob_one_time_key] |}.

(** A newly constructed session (its key members happen to hold zeros). *)
Definition fresh : Session RatchetState :=
  Session_new
    {| identity_id := 0; identity_public := {| public_key := zeros 32 |} |}
    {| public_key := zeros 32 |}.

Definition alice_random : list byte := repeat x05 64.

Definition alice : Session RatchetState :=
  fst (new_outbound_session fresh alice_account (key_of x0b)
         {| remote_id := 42; remote_key := key_of x0c |} alice_random).

Definition hello : list byte := [x68; x65; x6c; x6c; x6f].

(** Alice's first message: version 3, key id 42, the 32-byte base key,
    the 32-byte identity key and the 45-byte ratchet message (ratchet key,
    "hello", MAC). *)
Definition prekey_message : list byte :=
  [x03; x2a; x20] ++ repeat x05 32
  ++ [x20] ++ repeat x0a 32
  ++ [x2d] ++ (repeat x05 32 ++ hello ++ repeat x06 8).

Definition bob : Session RatchetState :=
  fst (new_inbound_session fresh bob_account prekey_message).

(** A session whose last call failed: [new_outbound_session] without
    randomness. *)
Definition failed_once : Session RatchetState :=
  fst (new_outbound_session fresh alice_account (key_of x0b)
         {| remote_id := 42; remote_key := key_of x0c |} []).

End Example.

(** ** Sequences of operations and contracts used further on *)

Section MoreDefinitions.
Context {RS : Type} {crypto : Crypto} {account_ops : AccountOps}
        {codec : Codec} {ratchet_ops : RatchetOps RS}.

(** The session after a sequence of operations, initiations included. *)
Fixpoint perform_all (s : Session RS) (ops : list Operation) : Session RS :=
  match ops with
  | [] => s
  | op :: ops => perform_all (fst (perform s op)) ops
  end.

(** What [new_inbound_session] requires of its input before it looks the
    one-time key up: the envelope has a 32-byte identity key, a 32-byte
    base key, a message and a one-time-key id, and the message decodes to
    a 32-byte ratchet key. *)
Definition inbound_message_well_formed (s : Session RS)
  (one_time_key_message : list byte) : Prop :=
  let reader := decode_one_time_key_message one_time_key_message in
  exists identity_bytes base_bytes body ratchet_bytes : list byte,
    reader_identity_key reader = Some identity_bytes
    /\ List.length identity_bytes = 32%nat
    /\ reader_base_key reader = Some base_bytes
    /\ List.length base_bytes = 32%nat
    /\ reader_message reader = Some body
    /\ has_one_time_key_id reader = true
    /\ reader_ratchet_key (decode_message body (mac_length (ratchet s)))
       = Some ratchet_bytes
    /\ List.length ratchet_bytes = 32%nat.


(** The identity key of the account an outbound initiation is given has
    its 32 bytes. *)
Definition operation_account_sized (op : Operation) : Prop :=
  match op with
  | NewOutboundSession a _ _ _ =>
      key_sized (local_key (account_identity_key a))
  | _ => True
  end.

(** What a caller gets back from an operation: the [std::size_t] with
    the buffer the operation wrote to (empty when it writes none), the
    [bool] or the message type. *)
Inductive Returned :=
| ReturnedSize (n : size_t) (buffer : list byte)
| ReturnedBool (b : bool)
| ReturnedType (t : MessageType).

Definition returned (s : Session RS) (op : Operation) : Returned :=
  match op with
  | NewOutboundSession a k o r =>
      ReturnedSize (snd (new_outbound_session s a k o r)) []
  | NewInboundSession a m => ReturnedSize (snd (new_inbound_session s a m)) []
  | LiveCall CallEncryptMessageType => ReturnedType (encrypt_message_type s)
  | LiveCall (CallEncryptMessageLength n) =>
      ReturnedSize (encrypt_message_length s n) []
  | LiveCall CallEncryptRandomLength =>
      ReturnedSize (encrypt_random_length s) []
  | LiveCall (CallMatchesInboundSession m) =>
      ReturnedBool (snd (matches_inbound_session s m))
  | LiveCall (CallEncrypt p r m) =>
      ReturnedSize (snd (fst (encrypt s p r m))) (snd (encrypt s p r m))
  | LiveCall (CallDecryptMaxPlaintextLength t m) =>
      ReturnedSize (snd (decrypt_max_plaintext_length s t m)) []
  | LiveCall (CallDecrypt t m p) =>
      ReturnedSize (snd (fst (decrypt s t m p))) (snd (decrypt s t m p))
  end.

(** What the caller gets back from each operation of a sequence. *)
Fixpoint returned_all (s : Session RS) (ops : list Operation)
  : list Returned :=
  match ops with
  | [] => []
  | op :: ops => returned s op :: returned_all (fst (perform s op)) ops
  end.

(** Two sessions that agree in every member except possibly
    [last_error]. *)
Definition same_but_last_error (s1 s2 : Session RS) : Prop :=
  set_last_error SUCCESS s1 = set_last_error SUCCESS s2.

(** The ratchet's [encrypt] writes inside the output region it is given:
    the region has the same size afterwards. *)
Definition ratchet_encrypt_keeps_output_size : Prop :=
  forall (r : Ratchet RS) (plaintext random output : list byte),
    List.length (snd (ratchet_encrypt r plaintext random output))
    = List.length output.

End MoreDefinitions.

(** * Properties *)

(** ** Byte buffers *)

Lemma SIZE_ERROR_value : SIZE_ERROR = 18446744073709551615.
Proof. reflexivity. Qed.

Lemma random_length_value : new_outbound_session_random_length = 64.
Proof. reflexivity. Qed.

Lemma zeros_length (n : nat) : List.length (zeros n) = n.
Proof. apply repeat_length. Qed.

Lemma zeros_app (n m : nat) : zeros (n + m) = zeros n ++ zeros m.
Proof. apply repeat_app. Qed.

Lemma memcpy_whole (dst src : list byte) (n : nat) :
  List.length dst = n -> List.length src = n -> memcpy dst src n = src.
Proof.
  intros Hd Hs. unfold memcpy.
  rewrite firstn_all2 by lia.
  rewrite skipn_all2 by lia.
  apply app_nil_r.
Qed.

Lemma memcpy_length (dst src : list byte) (n : nat) :
  List.length dst = n -> (n <= List.length src)%nat ->
  List.length (memcpy dst src n) = n.
Proof.
  intros Hd Hs. unfold memcpy.
  rewrite length_app, length_firstn, length_skipn. lia.
Qed.

(** Overwriting the middle block of a buffer by a block of the same
    size. *)
Lemma store_block (a b c d : list byte) :
  List.length d = List.length b ->
  store (a ++ b ++ c) (List.length a) d = a ++ d ++ c.
Proof.
  intros Hd. unfold store.
  assert (E1 : firstn (List.length a) (a ++ b ++ c) = a).
  { rewrite firstn_app, firstn_all, Nat.sub_diag, firstn_O.
    apply app_nil_r. }
  assert (E2 : skipn (List.length a + List.length d) (a ++ b ++ c) = c).
  { rewrite skipn_app, skipn_all2 by lia.
    replace (List.length a + List.length d - List.length a)%nat
      with (List.length b) by lia.
    rewrite skipn_app, skipn_all, Nat.sub_diag, skipn_O. reflexivity. }
  rewrite E1, E2.
  apply firstn_all2.
  rewrite !length_app. lia.
Qed.

Lemma store_length (buf : list byte) (off : nat) (data : list byte) :
  (off <= List.length buf)%nat ->
  List.length (store buf off data) = List.length buf.
Proof.
  intros H. unfold store.
  rewrite length_firstn, !length_app, length_firstn, length_skipn. lia.
Qed.

(** Three 32-byte writes at offsets 0, 32 and 64 fill a 96-byte array
    with the concatenation of what was written. *)
Lemma three_writes (d1 d2 d3 : list byte) :
  List.length d1 = 32%nat -> List.length d2 = 32%nat ->
  List.length d3 = 32%nat ->
  store (store (store (zeros 96) 0 d1) 32 d2) 64 d3 = d1 ++ d2 ++ d3.
Proof.
  intros H1 H2 H3.
  assert (S1 : store (zeros 96) 0 d1 = d1 ++ zeros 64).
  { apply (store_block [] (zeros 32) (zeros 64) d1).
    rewrite zeros_length. exact H1. }
  assert (S2 : store (d1 ++ zeros 64) 32 d2 = d1 ++ d2 ++ zeros 32).
  { pose proof (store_block d1 (zeros 32) (zeros 32) d2) as E.
    rewrite H1 in E. apply E. rewrite zeros_length. exact H2. }
  assert (S3 : store (d1 ++ d2 ++ zeros 32) 64 d3 = d1 ++ d2 ++ d3).
  { pose proof (store_block (d1 ++ d2) (zeros 32) [] d3) as E.
    rewrite length_app, H1, H2, app_nil_r, <- !app_assoc in E.
    rewrite app_nil_r in E.
    apply E. rewrite zeros_length. exact H3. }
  rewrite S1, S2, S3. reflexivity.
Qed.

Lemma region_first (a b : list byte) :
  region (a ++ b) 0 (List.length a) = a.
Proof.
  unfold region. rewrite skipn_O, firstn_app, firstn_all, Nat.sub_diag.
  rewrite firstn_O. apply app_nil_r.
Qed.

Lemma region_after (a b c : list byte) :
  region (a ++ b ++ c) (List.length a) (List.length b) = b.
Proof.
  unfold region.
  rewrite skipn_app, skipn_all, Nat.sub_diag, skipn_O. cbn [app].
  rewrite firstn_app, firstn_all, Nat.sub_diag, firstn_O.
  apply app_nil_r.
Qed.

Lemma to_N_injective (x y : byte) : Byte.to_N x = Byte.to_N y -> x = y.
Proof.
  intros H.
  assert (E : Some x = Some y)
    by (rewrite <- (Byte.of_to_N x), <- (Byte.of_to_N y), H; reflexivity).
  now inversion E.
Qed.

Lemma byte_eqb_refl (x : byte) : Byte.eqb x x = true.
Proof. now apply Byte.byte_dec_lb. Qed.

(** On two arrays of [n] bytes [memcmp] returns zero exactly when they
    are equal. *)
Lemma memcmp_zero_iff (n : nat) (a b : list byte) :
  List.length a = n -> List.length b = n ->
  (memcmp a b n = 0 <-> a = b).
Proof.
  revert a b. induction n as [|n IH]; intros a b Ha Hb.
  - destruct a; [|discriminate]. destruct b; [|discriminate].
    cbn. tauto.
  - destruct a as [|x a]; [discriminate|].
    destruct b as [|y b]; [discriminate|].
    cbn [memcmp].
    destruct (Byte.eqb x y) eqn:E.
    + apply Byte.byte_dec_bl in E. subst y.
      rewrite IH by (cbn in Ha, Hb; lia).
      split; intros H; [now subst | now inversion H].
    + split; intros H.
      * exfalso. apply Byte.eqb_false in E. apply E.
        apply to_N_injective. lia.
      * inversion H; subst. rewrite byte_eqb_refl in E. discriminate.
Qed.

Lemma zero_eqb_iff (z : Z) : (0 =? z) = true <-> z = 0.
Proof. rewrite Z.eqb_eq. split; intros H; now rewrite H. Qed.

Lemma field_length_32 (p : option (list byte)) :
  non_null p = true -> (field_length p =? KEY_LENGTH) = true ->
  exists l, p = Some l /\ List.length l = 32%nat.
Proof.
  destruct p as [l|]; cbn; intros Hn Hl; [|discriminate].
  exists l. split; [reflexivity|].
  apply Z.eqb_eq in Hl. unfold len, KEY_LENGTH in Hl. lia.
Qed.

(** ** Initiation *)

Section Initiation.
Context {RS : Type} {crypto : Crypto} {account_ops : AccountOps}
        {codec : Codec} {ratchet_ops : RatchetOps RS}.

Lemma outbound_shared_secret_layout
  (local_identity base_key : Curve25519KeyPair)
  (identity_key one_time_key : Curve25519PublicKey) :
  shared_secret_is_32_bytes ->
  outbound_shared_secret local_identity base_key identity_key one_time_key
  = curve25519_shared_secret local_identity one_time_key
    ++ curve25519_shared_secret base_key identity_key
    ++ curve25519_shared_secret base_key one_time_key.
Proof.
  intros H. unfold outbound_shared_secret. apply three_writes; apply H.
Qed.

Lemma inbound_shared_secret_layout
  (bob_one_time_key local_identity : Curve25519KeyPair)
  (alice_identity alice_base : Curve25519PublicKey) :
  shared_secret_is_32_bytes ->
  inbound_shared_secret bob_one_time_key local_identity alice_identity
                        alice_base
  = curve25519_shared_secret bob_one_time_key alice_identity
    ++ curve25519_shared_secret local_identity alice_base
    ++ curve25519_shared_secret bob_one_time_key alice_base.
Proof.
  intros H. unfold inbound_shared_secret. apply three_writes; apply H.
Qed.

Lemma secret_96 (d1 d2 d3 : list byte) :
  List.length d1 = 32%nat -> List.length d2 = 32%nat ->
  List.length d3 = 32%nat ->
  firstn 96 (d1 ++ d2 ++ d3) = d1 ++ d2 ++ d3.
Proof.
  intros H1 H2 H3. apply firstn_all2. rewrite !length_app. lia.
Qed.

(** What a call of [new_outbound_session] with enough randomness does. *)
Lemma new_outbound_session_success (s : Session RS) (local_account : Account)
  (identity_key : Curve25519PublicKey) (one_time_key : RemoteKey)
  (random : list byte) :
  new_outbound_session_random_length <= len random ->
  let base_key := generate_key (region random 0 32) in
  let ratchet_key := generate_key (region random 32 32) in
  let local_identity := account_identity_key local_account in
  new_outbound_session s local_account identity_key one_time_key random
  = ({| ratchet :=
          initialise_as_alice (ratchet s)
            (firstn 96
               (outbound_shared_secret (local_key local_identity) base_key
                  identity_key (remote_key one_time_key)))
            ratchet_key;
        last_error := last_error s;
        received_message := false;
        alice_identity_key :=
          {| identity_id := local_id local_identity;
             identity_public := local_key local_identity |};
        alice_base_key := base_key;
        bob_one_time_key_id := remote_id one_time_key |}, 0).
Proof.
  intros Hlen. unfold new_outbound_session, new_outbound_session_exit.
  destruct (len random <? new_outbound_session_random_length) eqn:E.
  - apply Z.ltb_lt in E. lia.
  - reflexivity.
Qed.

(** What a call of [new_inbound_session] does on a well-formed prekey
    message naming a one-time key the account holds. *)
Lemma new_inbound_session_success (s : Session RS) (local_account : Account)
  (one_time_key_message identity_bytes base_bytes ratchet_bytes : list byte)
  (bob_one_time_key : LocalKey) :
  let reader := decode_one_time_key_message one_time_key_message in
  let message_reader :=
    decode_message (field_bytes (reader_message reader))
                   (mac_length (ratchet s)) in
  session_keys_sized s ->
  reader_identity_key reader = Some identity_bytes ->
  List.length identity_bytes = 32%nat ->
  reader_base_key reader = Some base_bytes ->
  List.length base_bytes = 32%nat ->
  non_null (reader_message reader) = true ->
  has_one_time_key_id reader = true ->
  reader_ratchet_key message_reader = Some ratchet_bytes ->
  List.length ratchet_bytes = 32%nat ->
  lookup_key local_account (one_time_key_id reader) = Some bob_one_time_key ->
  new_inbound_session s local_account one_time_key_message
  = ({| ratchet :=
          initialise_as_bob (ratchet s)
            (firstn 96
               (inbound_shared_secret
                  (local_key bob_one_time_key)
                  (local_key (account_identity_key local_account))
                  {| public_key := identity_bytes |}
                  {| public_key := base_bytes |}))
            {| public_key := ratchet_bytes |};
        last_error := last_error s;
        received_message := received_message s;
        alice_identity_key :=
          {| identity_id := identity_id (alice_identity_key s);
             identity_public := {| public_key := identity_bytes |} |};
        alice_base_key := {| public_key := base_bytes |};
        bob_one_time_key_id := one_time_key_id reader |}, 0).
Proof.
  intros reader message_reader [Hki Hkb] Hid Hidl Hbase Hbasel Hmsg Hhas
         Hrk Hrkl Hlookup.
  unfold new_inbound_session, new_inbound_session_exit.
  fold reader. fold message_reader.
  assert (Hcheck : check_message_fields reader = true).
  { unfold check_message_fields. rewrite Hid, Hbase, Hmsg, Hhas. cbn.
    unfold len, KEY_LENGTH. rewrite Hidl, Hbasel. reflexivity. }
  rewrite Hcheck. cbn [negb].
  rewrite Hrk. cbn [non_null negb orb field_length].
  unfold len at 1. rewrite Hrkl. cbn [Z.of_nat KEY_LENGTH Z.eqb negb].
  cbn -[memcpy inbound_shared_secret firstn zeros].
  rewrite Hlookup. cbn -[memcpy inbound_shared_secret firstn zeros].
  rewrite Hid, Hbase. cbn [field_bytes].
  rewrite !memcpy_whole; try assumption; try apply zeros_length.
  reflexivity.
Qed.

End Initiation.

Section Handshake.
Context {RS : Type} {crypto : Crypto} {account_ops : AccountOps}
        {codec : Codec} {ratchet_ops : RatchetOps RS}.

(** C1.  The 96-byte handshake secret.  Alice runs [new_outbound_session]
    with her account, Bob's identity and one-time public keys and at least
    64 random bytes; Bob runs [new_inbound_session] on a well-formed prekey
    message that carries Alice's identity and base public keys and names
    the one-time key.  Then both calls return 0; Alice's ratchet is
    initialised as Alice and Bob's as Bob with one and the same 96-byte
    secret, which is, in this order, on Alice's side
    DH(identity private, one-time public), DH(base private, identity
    public), DH(base private, one-time public) and on Bob's side
    DH(one-time private, Alice identity public), DH(identity private,
    Alice base public), DH(one-time private, Alice base public), at bytes
    0..32, 32..64 and 64..96.  The Diffie-Hellman function is assumed to
    write 32 bytes and to agree between the two holders of each pair of
    keys used. *)
Theorem handshake_secret_order
  (alice bob : Session RS) (alice_account bob_account : Account)
  (bob_one_time_key : LocalKey) (random prekey_message ratchet_bytes : list byte) :
  let alice_identity := local_key (account_identity_key alice_account) in
  let bob_identity := local_key (account_identity_key bob_account) in
  let one_time := local_key bob_one_time_key in
  let base_key := generate_key (region random 0 32) in
  let ratchet_key := generate_key (region random 32 32) in
  let reader := decode_one_time_key_message prekey_message in
  let message_reader :=
    decode_message (field_bytes (reader_message reader))
                   (mac_length (ratchet bob)) in
  let alice_after :=
    new_outbound_session alice alice_account bob_identity
      {| remote_id := local_id bob_one_time_key; remote_key := one_time |}
      random in
  let bob_after := new_inbound_session bob bob_account prekey_message in
  shared_secret_is_32_bytes ->
  curve25519_shared_secret alice_identity one_time
  = curve25519_shared_secret one_time alice_identity ->
  curve25519_shared_secret base_key bob_identity
  = curve25519_shared_secret bob_identity base_key ->
  curve25519_shared_secret base_key one_time
  = curve25519_shared_secret one_time base_key ->
  new_outbound_session_random_length <= len random ->
  session_keys_sized bob ->
  key_sized alice_identity ->
  key_sized base_key ->
  reader_identity_key reader = Some (public_key alice_identity) ->
  reader_base_key reader = Some (public_key base_key) ->
  non_null (reader_message reader) = true ->
  has_one_time_key_id reader = true ->
  reader_ratchet_key message_reader = Some ratchet_bytes ->
  List.length ratchet_bytes = 32%nat ->
  lookup_key bob_account (one_time_key_id reader) = Some bob_one_time_key ->
  exists shared_secret : list byte,
    snd alice_after = 0
    /\ ratchet (fst alice_after)
       = initialise_as_alice (ratchet alice) shared_secret ratchet_key
    /\ snd bob_after = 0
    /\ ratchet (fst bob_after)
       = initialise_as_bob (ratchet bob) shared_secret
                           {| public_key := ratchet_bytes |}
    /\ List.length shared_secret = 96%nat
    /\ shared_secret
       = curve25519_shared_secret alice_identity one_time
         ++ curve25519_shared_secret base_key bob_identity
         ++ curve25519_shared_secret base_key one_time
    /\ shared_secret
       = curve25519_shared_secret one_time
           (identity_public (alice_identity_key (fst bob_after)))
         ++ curve25519_shared_secret bob_identity
              (alice_base_key (fst bob_after))
         ++ curve25519_shared_secret one_time (alice_base_key (fst bob_after))
    /\ region shared_secret 0 32
       = curve25519_shared_secret alice_identity one_time
    /\ region shared_secret 32 32
       = curve25519_shared_secret base_key bob_identity
    /\ region shared_secret 64 32
       = curve25519_shared_secret base_key one_time.
Proof.
  intros alice_identity bob_identity one_time base_key ratchet_key reader
         message_reader alice_after bob_after
         H32 Ha Hb Hc Hrandom Hbob Hai Hbase Hid Hbk Hmsg Hhas Hrk Hrkl
         Hlookup.
  pose (d1 := curve25519_shared_secret alice_identity one_time).
  pose (d2 := curve25519_shared_secret base_key bob_identity).
  pose (d3 := curve25519_shared_secret base_key one_time).
  assert (L1 : List.length d1 = 32%nat) by apply H32.
  assert (L2 : List.length d2 = 32%nat) by apply H32.
  assert (L3 : List.length d3 = 32%nat) by apply H32.
  assert (EA : alice_after
               = ({| ratchet :=
                       initialise_as_alice (ratchet alice) (d1 ++ d2 ++ d3)
                                           ratchet_key;
                     last_error := last_error alice;
                     received_message := false;
                     alice_identity_key :=
                       {| identity_id :=
                            local_id (account_identity_key alice_account);
                          identity_public := alice_identity |};
                     alice_base_key := base_key;
                     bob_one_time_key_id := local_id bob_one_time_key |}, 0)).
  { unfold alice_after.
    rewrite new_outbound_session_success by exact Hrandom.
    rewrite outbound_shared_secret_layout by exact H32.
    cbn [remote_key remote_id].
    fold alice_identity base_key ratchet_key one_time bob_identity.
    fold d1 d2 d3. rewrite secret_96 by assumption. reflexivity. }
  assert (EB : bob_after
               = ({| ratchet :=
                       initialise_as_bob (ratchet bob) (d1 ++ d2 ++ d3)
                                         {| public_key := ratchet_bytes |};
                     last_error := last_error bob;
                     received_message := received_message bob;
                     alice_identity_key :=
                       {| identity_id := identity_id (alice_identity_key bob);
                          identity_public :=
                            {| public_key := public_key alice_identity |} |};
                     alice_base_key :=
                       {| public_key := public_key base_key |};
                     bob_one_time_key_id := one_time_key_id reader |}, 0)).
  { unfold bob_after.
    rewrite (new_inbound_session_success bob bob_account prekey_message
               (public_key alice_identity) (public_key base_key)
               ratchet_bytes bob_one_time_key)
      by assumption.
    rewrite inbound_shared_secret_layout by exact H32.
    fold one_time bob_identity reader.
    assert (P1 : {| public_key := public_key alice_identity |}
                 = key_pair_public alice_identity)
      by (destruct (key_pair_public alice_identity); reflexivity).
    assert (P2 : {| public_key := public_key base_key |}
                 = key_pair_public base_key)
      by (destruct (key_pair_public base_key); reflexivity).
    rewrite P1, P2, <- Ha, <- Hb, <- Hc. fold d1 d2 d3.
    rewrite secret_96 by assumption. rewrite <- P1, <- P2. reflexivity. }
  exists (d1 ++ d2 ++ d3).
  rewrite EA, EB. cbn [fst snd ratchet alice_identity_key alice_base_key
                       identity_public].
  repeat split.
  - rewrite !length_app. lia.
  - assert (P1 : {| public_key := public_key alice_identity |}
                 = key_pair_public alice_identity)
      by (destruct (key_pair_public alice_identity); reflexivity).
    assert (P2 : {| public_key := public_key base_key |}
                 = key_pair_public base_key)
      by (destruct (key_pair_public base_key); reflexivity).
    rewrite P1, P2, <- Ha, <- Hb, <- Hc. reflexivity.
  - pose proof (region_first d1 (d2 ++ d3)) as E.
    rewrite L1 in E. exact E.
  - pose proof (region_after d1 d2 d3) as E.
    rewrite L1, L2 in E. exact E.
  - pose proof (region_after (d1 ++ d2) d3 []) as E.
    rewrite length_app, L1, L2, L3, app_nil_r, <- app_assoc in E.
    exact E.
Qed.

End Handshake.

(** ** Local validation errors *)

Section ValidationErrors.
Context {RS : Type} {crypto : Crypto} {account_ops : AccountOps}
        {codec : Codec} {ratchet_ops : RatchetOps RS}.

(** C5.  With fewer than 64 bytes of randomness [new_outbound_session]
    returns the all-ones value and sets [last_error] to
    [NOT_ENOUGH_RANDOM]; [received_message], [alice_identity_key],
    [alice_base_key], [bob_one_time_key_id] and the ratchet are as
    before. *)
Theorem new_outbound_session_not_enough_random
  (s : Session RS) (local_account : Account)
  (identity_key : Curve25519PublicKey) (one_time_key : RemoteKey)
  (random : list byte) :
  len random < 64 ->
  let after :=
    new_outbound_session s local_account identity_key one_time_key random in
  snd after = 2 ^ 64 - 1
  /\ last_error (fst after) = NOT_ENOUGH_RANDOM
  /\ received_message (fst after) = received_message s
  /\ alice_identity_key (fst after) = alice_identity_key s
  /\ alice_base_key (fst after) = alice_base_key s
  /\ bob_one_time_key_id (fst after) = bob_one_time_key_id s
  /\ ratchet (fst after) = ratchet s.
Proof.
  intros Hlen after. subst after.
  unfold new_outbound_session, new_outbound_session_exit.
  rewrite random_length_value.
  destruct (len random <? 64) eqn:E.
  - cbn. repeat split.
  - apply Z.ltb_ge in E. lia.
Qed.

(** C7.  With an output buffer shorter than [encrypt_message_length] of
    the plaintext length, [encrypt] returns the all-ones value and sets
    [last_error] to [OUTPUT_BUFFER_TOO_SMALL].  The ratchet is not called:
    whatever [ratchet_encrypt] does, the session's ratchet is the one it
    had, as are the other members and the output buffer. *)
Theorem encrypt_output_buffer_too_small
  (s : Session RS) (plaintext random message : list byte) :
  len message < encrypt_message_length s (len plaintext) ->
  let after := encrypt s plaintext random message in
  snd (fst after) = 2 ^ 64 - 1
  /\ last_error (fst (fst after)) = OUTPUT_BUFFER_TOO_SMALL
  /\ ratchet (fst (fst after)) = ratchet s
  /\ fst (fst after) = set_last_error OUTPUT_BUFFER_TOO_SMALL s
  /\ snd after = message.
Proof.
  intros Hlen after. subst after. unfold encrypt.
  destruct (len message <? encrypt_message_length s (len plaintext)) eqn:E.
  - cbn. repeat split.
  - apply Z.ltb_ge in E. lia.
Qed.

(** C6.  [matches_inbound_session] leaves the session as it is,
    [last_error] included.  It answers [false] when the decoded envelope
    fails [check_message_fields]; otherwise it answers [true] exactly when
    the envelope's identity key bytes are [alice_identity_key]'s public
    key, its base key bytes are [alice_base_key]'s public key and its
    one-time-key id is [bob_one_time_key_id]. *)
Theorem matches_inbound_session_spec
  (s : Session RS) (one_time_key_message : list byte) :
  session_keys_sized s ->
  let reader := decode_one_time_key_message one_time_key_message in
  let after := matches_inbound_session s one_time_key_message in
  fst after = s
  /\ (check_message_fields reader = false -> snd after = false)
  /\ (check_message_fields reader = true ->
      (snd after = true <->
       reader_identity_key reader
       = Some (public_key (identity_public (alice_identity_key s)))
       /\ reader_base_key reader = Some (public_key (alice_base_key s))
       /\ one_time_key_id reader = bob_one_time_key_id s)).
Proof.
  intros [Hki Hkb] reader after. subst after.
  unfold matches_inbound_session. fold reader.
  destruct (check_message_fields reader) eqn:Hcheck; cbn [negb fst snd].
  - split; [reflexivity|]. split; [discriminate|]. intros _.
    unfold check_message_fields in Hcheck. cbn [andb] in Hcheck.
    repeat (apply andb_prop in Hcheck; destruct Hcheck as [Hcheck ?]).
    destruct (field_length_32 (reader_identity_key reader))
      as (ib & Hi & Hil); try assumption.
    destruct (field_length_32 (reader_base_key reader))
      as (bb & Hb & Hbl); try assumption.
    rewrite Hi, Hb. cbn [field_bytes andb].
    change (Z.to_nat KEY_LENGTH) with 32%nat.
    rewrite !andb_true_iff, !zero_eqb_iff, Z.eqb_eq.
    rewrite !memcmp_zero_iff by assumption.
    split.
    + intros [[-> ->] ->]. repeat split.
    + intros (E1 & E2 & ->). inversion E1. inversion E2. repeat split.
  - split; [reflexivity|]. split; [reflexivity|discriminate].
Qed.

End ValidationErrors.

(** ** What each call on a live session changes *)

Ltac break_match :=
  match goal with
  | |- context [match ?x with _ => _ end] => destruct x eqn:?
  end.

Ltac session_simpl :=
  cbn [fst snd ratchet last_error received_message alice_identity_key
       alice_base_key bob_one_time_key_id set_ratchet set_last_error
       set_received_message set_alice_identity_key set_alice_base_key
       set_bob_one_time_key_id set_alice_identity_id
       set_alice_identity_public identity_id identity_public] in *.

Ltac run_operation := repeat break_match; session_simpl.

(** Closes the cases of an operation once they are laid out: the result
    is, or is not, the error value. *)
Ltac size_error_cases :=
  try reflexivity;
  try (repeat split; fail);
  try match goal with
      | H : (?n =? SIZE_ERROR) = true, H' : ?n <> SIZE_ERROR |- _ =>
          apply Z.eqb_eq in H; contradiction
      | H : ?n <> ?n |- _ => now contradiction H
      end.

Section Frames.
Context {RS : Type} {codec : Codec} {ratchet_ops : RatchetOps RS}.

(** [encrypt] writes [last_error] and the ratchet, nothing else. *)
Lemma encrypt_frame (s : Session RS) (plaintext random message : list byte) :
  let after := fst (fst (encrypt s plaintext random message)) in
  received_message after = received_message s
  /\ alice_identity_key after = alice_identity_key s
  /\ alice_base_key after = alice_base_key s
  /\ bob_one_time_key_id after = bob_one_time_key_id s.
Proof.
  unfold encrypt. run_operation; repeat split.
Qed.

Lemma encrypt_success_last_error (s : Session RS)
  (plaintext random message : list byte) :
  snd (fst (encrypt s plaintext random message)) <> SIZE_ERROR ->
  last_error (fst (fst (encrypt s plaintext random message))) = last_error s.
Proof.
  unfold encrypt. run_operation; intros H; size_error_cases.
Qed.

(** [decrypt_max_plaintext_length] writes [last_error] and the ratchet,
    nothing else. *)
Lemma decrypt_max_plaintext_length_frame (s : Session RS)
  (message_type : MessageType) (message : list byte) :
  let after := fst (decrypt_max_plaintext_length s message_type message) in
  received_message after = received_message s
  /\ alice_identity_key after = alice_identity_key s
  /\ alice_base_key after = alice_base_key s
  /\ bob_one_time_key_id after = bob_one_time_key_id s.
Proof.
  unfold decrypt_max_plaintext_length. run_operation; repeat split.
Qed.

Lemma decrypt_max_plaintext_length_success_last_error (s : Session RS)
  (message_type : MessageType) (message : list byte) :
  snd (decrypt_max_plaintext_length s message_type message) <> SIZE_ERROR ->
  last_error (fst (decrypt_max_plaintext_length s message_type message))
  = last_error s.
Proof.
  unfold decrypt_max_plaintext_length.
  run_operation; intros H; size_error_cases.
Qed.

(** [decrypt] writes [last_error], the ratchet and [received_message],
    nothing else; [received_message] is set when the call returns a
    length and kept when it returns the error value. *)
Lemma decrypt_frame (s : Session RS) (message_type : MessageType)
  (message plaintext : list byte) :
  let after := decrypt s message_type message plaintext in
  received_message (fst (fst after))
  = (if snd (fst after) =? SIZE_ERROR then received_message s else true)
  /\ alice_identity_key (fst (fst after)) = alice_identity_key s
  /\ alice_base_key (fst (fst after)) = alice_base_key s
  /\ bob_one_time_key_id (fst (fst after)) = bob_one_time_key_id s.
Proof.
  unfold decrypt. run_operation; repeat split;
    try congruence; try (rewrite Z.eqb_refl in *; discriminate).
Qed.

Lemma decrypt_success_last_error (s : Session RS)
  (message_type : MessageType) (message plaintext : list byte) :
  snd (fst (decrypt s message_type message plaintext)) <> SIZE_ERROR ->
  last_error (fst (fst (decrypt s message_type message plaintext)))
  = last_error s.
Proof.
  unfold decrypt. run_operation; intros H; size_error_cases.
Qed.

Lemma matches_inbound_session_frame (s : Session RS) (message : list byte) :
  fst (matches_inbound_session s message) = s.
Proof.
  unfold matches_inbound_session. run_operation; reflexivity.
Qed.

(** No call on a live session writes a handshake member. *)
Lemma after_call_handshake (s : Session RS) (c : Call) :
  alice_identity_key (after_call s c) = alice_identity_key s
  /\ alice_base_key (after_call s c) = alice_base_key s
  /\ bob_one_time_key_id (after_call s c) = bob_one_time_key_id s.
Proof.
  destruct c; cbn [after_call]; try (repeat split; fail).
  - rewrite matches_inbound_session_frame. repeat split.
  - apply encrypt_frame.
  - apply decrypt_max_plaintext_length_frame.
  - apply decrypt_frame.
Qed.

(** [received_message] after a call: what it was, or true when the call
    is a [decrypt] that returned a length. *)
Lemma after_call_received_message (s : Session RS) (c : Call) :
  received_message (after_call s c)
  = received_message s || decrypt_succeeds s c.
Proof.
  destruct c; cbn [after_call decrypt_succeeds];
    try (now rewrite orb_false_r).
  - rewrite matches_inbound_session_frame. now rewrite orb_false_r.
  - rewrite orb_false_r. apply encrypt_frame.
  - rewrite orb_false_r. apply decrypt_max_plaintext_length_frame.
  - destruct (decrypt_frame s message_type message plaintext) as [E _].
    cbn zeta in E. rewrite E.
    destruct (snd (fst (decrypt s message_type message plaintext))
              =? SIZE_ERROR); cbn [negb].
    + now rewrite orb_false_r.
    + now rewrite orb_true_r.
Qed.

Lemma after_calls_received_message (s : Session RS) (calls : list Call) :
  received_message (after_calls s calls)
  = received_message s || some_decrypt_succeeded s calls.
Proof.
  revert s. induction calls as [|c calls IH]; intros s;
    cbn [after_calls some_decrypt_succeeded].
  - now rewrite orb_false_r.
  - rewrite IH, after_call_received_message. now rewrite orb_assoc.
Qed.

Lemma after_calls_app (s : Session RS) (calls more : list Call) :
  after_calls s (calls ++ more) = after_calls (after_calls s calls) more.
Proof.
  revert s. induction calls as [|c calls IH]; intros s; cbn; auto.
Qed.

End Frames.

(** ** The life of a session *)

Section Lifetime.
Context {RS : Type} {codec : Codec} {ratchet_ops : RatchetOps RS}.

(** C2.  The message-type latch.  Take a session that has not received a
    message (as a newly constructed or newly initiated one) and any
    sequence of calls on it.  While no [decrypt] among them has returned a
    length, [encrypt_message_type] answers [PRE_KEY]; once one has,
    [received_message] is true and [encrypt_message_type] answers
    [MESSAGE] after any further calls.  On any session, neither [encrypt]
    nor [decrypt] turns a true [received_message] into false. *)
Theorem message_type_latch (s : Session RS) (calls : list Call) :
  received_message s = false ->
  (some_decrypt_succeeded s calls = false ->
   encrypt_message_type (after_calls s calls) = PRE_KEY)
  /\ (some_decrypt_succeeded s calls = true ->
      received_message (after_calls s calls) = true
      /\ forall more : list Call,
           encrypt_message_type (after_calls s (calls ++ more)) = MESSAGE)
  /\ (forall (s1 : Session RS) (message_type : MessageType)
             (plaintext random message : list byte),
         received_message s1 = true ->
         received_message (fst (fst (encrypt s1 plaintext random message)))
         = true
         /\ received_message
              (fst (fst (decrypt s1 message_type message plaintext)))
            = true).
Proof.
  intros Hfresh. split; [|split].
  - intros Hnone. unfold encrypt_message_type.
    rewrite after_calls_received_message, Hfresh, Hnone. reflexivity.
  - intros Hsome. split.
    + rewrite after_calls_received_message, Hsome. apply orb_true_r.
    + intros more. unfold encrypt_message_type.
      rewrite after_calls_app, !after_calls_received_message, Hsome.
      rewrite orb_true_r. reflexivity.
  - intros s1 message_type plaintext random message H1. split.
    + destruct (encrypt_frame s1 plaintext random message) as [E _].
      cbn zeta in E. now rewrite E.
    + destruct (decrypt_frame s1 message_type message plaintext) as [E _].
      cbn zeta in E. rewrite E. now destruct (_ =? _).
Qed.

(** C8.  The handshake identifiers do not change during the life of a
    session: after any sequence of calls on it the public key of
    [alice_identity_key], the public key of [alice_base_key] and
    [bob_one_time_key_id] are what they were, and so after each single
    [encrypt], [decrypt], [decrypt_max_plaintext_length],
    [encrypt_message_length] and [matches_inbound_session], whatever it
    returns. *)
Theorem handshake_identifiers_immutable (s : Session RS) :
  (forall calls : list Call,
      handshake_identifiers (after_calls s calls) = handshake_identifiers s)
  /\ (forall plaintext random message : list byte,
         handshake_identifiers
           (fst (fst (encrypt s plaintext random message)))
         = handshake_identifiers s)
  /\ (forall (message_type : MessageType) (message plaintext : list byte),
         handshake_identifiers
           (fst (fst (decrypt s message_type message plaintext)))
         = handshake_identifiers s)
  /\ (forall (message_type : MessageType) (message : list byte),
         handshake_identifiers
           (fst (decrypt_max_plaintext_length s message_type message))
         = handshake_identifiers s)
  /\ (forall plaintext_length : size_t,
         handshake_identifiers
           (after_call s (CallEncryptMessageLength plaintext_length))
         = handshake_identifiers s)
  /\ (forall message : list byte,
         handshake_identifiers (fst (matches_inbound_session s message))
         = handshake_identifiers s).
Proof.
  assert (step : forall (s0 : Session RS) (c : Call),
             handshake_identifiers (after_call s0 c)
             = handshake_identifiers s0).
  { intros s0 c. unfold handshake_identifiers.
    destruct (after_call_handshake s0 c) as (-> & -> & ->). reflexivity. }
  split; [|repeat split].
  - intros calls. revert s.
    induction calls as [|c calls IH]; intros s; cbn [after_calls].
    + reflexivity.
    + rewrite IH. apply step.
  - intros p r m. apply (step s (CallEncrypt p r m)).
  - intros t m p. apply (step s (CallDecrypt t m p)).
  - intros t m. apply (step s (CallDecryptMaxPlaintextLength t m)).
  - intros m. apply (step s (CallMatchesInboundSession m)).
Qed.

End Lifetime.

(** ** Errors and [last_error] *)

Lemma zero_is_not_SIZE_ERROR : 0 <> SIZE_ERROR.
Proof. discriminate. Qed.

Section Errors.
Context {RS : Type} {crypto : Crypto} {account_ops : AccountOps}
        {codec : Codec} {ratchet_ops : RatchetOps RS}.

(** [new_outbound_session] returns 0 or the error value, and the error
    value only from its check of the random length. *)
Lemma new_outbound_session_error (s : Session RS) (local_account : Account)
  (identity_key : Curve25519PublicKey) (one_time_key : RemoteKey)
  (random : list byte) :
  snd (new_outbound_session s local_account identity_key one_time_key random)
  = SIZE_ERROR ->
  fst (new_outbound_session s local_account identity_key one_time_key random)
  = set_last_error NOT_ENOUGH_RANDOM s.
Proof.
  unfold new_outbound_session, new_outbound_session_exit.
  run_operation; intros H; [reflexivity|].
  destruct (zero_is_not_SIZE_ERROR H).
Qed.

Lemma new_outbound_session_success_last_error (s : Session RS)
  (local_account : Account) (identity_key : Curve25519PublicKey)
  (one_time_key : RemoteKey) (random : list byte) :
  snd (new_outbound_session s local_account identity_key one_time_key random)
  <> SIZE_ERROR ->
  last_error
    (fst (new_outbound_session s local_account identity_key one_time_key
                               random))
  = last_error s.
Proof.
  unfold new_outbound_session, new_outbound_session_exit.
  run_operation; intros H; size_error_cases.
Qed.

(** The three ways [new_inbound_session] returns the error value: twice
    before it has written anything, once after it has stored the
    envelope's keys and key id. *)
Lemma new_inbound_session_error (s : Session RS) (local_account : Account)
  (one_time_key_message : list byte) :
  let reader := decode_one_time_key_message one_time_key_message in
  let after := fst (new_inbound_session s local_account one_time_key_message) in
  snd (new_inbound_session s local_account one_time_key_message)
  = SIZE_ERROR ->
  after = set_last_error BAD_MESSAGE_FORMAT s
  \/ after
     = {| ratchet := ratchet s;
          last_error := BAD_MESSAGE_KEY_ID;
          received_message := received_message s;
          alice_identity_key :=
            {| identity_id := identity_id (alice_identity_key s);
               identity_public :=
                 {| public_key :=
                      memcpy (public_key
                                (identity_public (alice_identity_key s)))
                             (field_bytes (reader_identity_key reader))
                             32 |} |};
          alice_base_key :=
            {| public_key :=
                 memcpy (public_key (alice_base_key s))
                        (field_bytes (reader_base_key reader)) 32 |};
          bob_one_time_key_id := one_time_key_id reader |}.
Proof.
  intros reader after. subst after.
  unfold new_inbound_session, new_inbound_session_exit. fold reader.
  destruct (negb (check_message_fields reader)); [now left|].
  destruct (_ || _); [now left|].
  session_simpl.
  destruct (lookup_key local_account (one_time_key_id reader));
    session_simpl; intros H.
  - destruct (zero_is_not_SIZE_ERROR H).
  - right. reflexivity.
Qed.

Lemma new_inbound_session_success_last_error (s : Session RS)
  (local_account : Account) (one_time_key_message : list byte) :
  snd (new_inbound_session s local_account one_time_key_message)
  <> SIZE_ERROR ->
  last_error (fst (new_inbound_session s local_account one_time_key_message))
  = last_error s.
Proof.
  unfold new_inbound_session, new_inbound_session_exit.
  destruct (negb (check_message_fields _));
    [intros H; session_simpl; size_error_cases|].
  destruct (_ || _); [intros H; session_simpl; size_error_cases|].
  session_simpl.
  destruct (lookup_key _ _); intros H; session_simpl; size_error_cases.
Qed.

(** The session's own checks leave the ratchet alone. *)
Lemma encrypt_unreached_ratchet (s : Session RS)
  (plaintext random message : list byte) :
  (len message <? encrypt_message_length s (len plaintext)) = true ->
  fst (fst (encrypt s plaintext random message))
  = set_last_error OUTPUT_BUFFER_TOO_SMALL s.
Proof. unfold encrypt. intros ->. reflexivity. Qed.

Lemma decrypt_unreached_ratchet (s : Session RS) (message_type : MessageType)
  (message plaintext : list byte) :
  message_body_of message_type message = None ->
  fst (fst (decrypt s message_type message plaintext))
  = set_last_error BAD_MESSAGE_FORMAT s.
Proof. unfold decrypt. intros ->. reflexivity. Qed.

Lemma decrypt_max_plaintext_length_unreached_ratchet (s : Session RS)
  (message_type : MessageType) (message : list byte) :
  message_body_of message_type message = None ->
  fst (decrypt_max_plaintext_length s message_type message)
  = set_last_error BAD_MESSAGE_FORMAT s.
Proof. unfold decrypt_max_plaintext_length. intros ->. reflexivity. Qed.

End Errors.

Section ErrorsAndState.
Context {RS : Type} {crypto : Crypto} {account_ops : AccountOps}
        {codec : Codec} {ratchet_ops : RatchetOps RS}.

Lemma perform_new_outbound_session (s : Session RS) (a : Account)
  (k : Curve25519PublicKey) (o : RemoteKey) (r : list byte) :
  perform s (NewOutboundSession a k o r)
  = (fst (new_outbound_session s a k o r),
     Some (snd (new_outbound_session s a k o r))).
Proof. cbn [perform]. now destruct (new_outbound_session s a k o r). Qed.

Lemma perform_new_inbound_session (s : Session RS) (a : Account)
  (m : list byte) :
  perform s (NewInboundSession a m)
  = (fst (new_inbound_session s a m), Some (snd (new_inbound_session s a m))).
Proof. cbn [perform]. now destruct (new_inbound_session s a m). Qed.

Lemma set_last_error_same (s : Session RS) :
  set_last_error (last_error s) s = s.
Proof. now destruct s. Qed.

(** What an operation that returned the error value has left of the
    session, in full. *)
Lemma error_cases (s : Session RS) (op : Operation) :
  snd (perform s op) = Some SIZE_ERROR ->
  let after := fst (perform s op) in
  (* the session's own check failed, or nothing was to be checked *)
  (reaches_ratchet s op = false
   /\ after = set_last_error (last_error after) s
   /\ (is_new_inbound_session op = true ->
       last_error after = BAD_MESSAGE_FORMAT))
  (* the ratchet was called *)
  \/ (reaches_ratchet s op = true
      /\ is_new_inbound_session op = false
      /\ received_message after = received_message s
      /\ alice_identity_key after = alice_identity_key s
      /\ alice_base_key after = alice_base_key s
      /\ bob_one_time_key_id after = bob_one_time_key_id s)
  (* the one-time key was not found *)
  \/ (exists (a : Account) (m : list byte),
        op = NewInboundSession a m
        /\ reaches_ratchet s op = false
        /\ after
           = {| ratchet := ratchet s;
                last_error := BAD_MESSAGE_KEY_ID;
                received_message := received_message s;
                alice_identity_key :=
                  {| identity_id := identity_id (alice_identity_key s);
                     identity_public :=
                       {| public_key :=
                            memcpy
                              (public_key
                                 (identity_public (alice_identity_key s)))
                              (field_bytes
                                 (reader_identity_key
                                    (decode_one_time_key_message m)))
                              32 |} |};
                alice_base_key :=
                  {| public_key :=
                       memcpy (public_key (alice_base_key s))
                              (field_bytes
                                 (reader_base_key
                                    (decode_one_time_key_message m)))
                              32 |};
                bob_one_time_key_id :=
                  one_time_key_id (decode_one_time_key_message m) |}).
Proof.
  destruct op as [a k o r|a m|c].
  - rewrite perform_new_outbound_session. cbn [fst snd].
    intros H. injection H as H.
    apply new_outbound_session_error in H. rewrite H.
    left. repeat split; discriminate.
  - rewrite perform_new_inbound_session. cbn [fst snd].
    intros H. injection H as H.
    destruct (new_inbound_session_error s a m H) as [E|E]; rewrite E.
    + left. repeat split.
    + right. right. exists a, m. repeat split.
  - cbn [perform fst snd].
    destruct c as [|n| |m|p r m|t m|t m p];
      cbn [call_result after_call reaches_ratchet is_new_inbound_session];
      intros H; try discriminate H.
    + left. rewrite set_last_error_same. repeat split; discriminate.
    + left. rewrite set_last_error_same. repeat split; discriminate.
    + destruct (len m <? encrypt_message_length s (len p)) eqn:E;
        cbn [negb].
      * left. rewrite encrypt_unreached_ratchet by exact E.
        repeat split; discriminate.
      * right. left. repeat split; apply encrypt_frame.
    + destruct (message_body_of t m) eqn:E; cbn [non_null].
      * right. left.
        repeat split; apply decrypt_max_plaintext_length_frame.
      * left.
        rewrite decrypt_max_plaintext_length_unreached_ratchet by exact E.
        repeat split; discriminate.
    + destruct (message_body_of t m) eqn:E; cbn [non_null].
      * right. left. injection H as H.
        destruct (decrypt_frame s t m p) as (F1 & F2 & F3 & F4).
        cbn zeta in F1. rewrite H, Z.eqb_refl in F1.
        repeat split; assumption.
      * left. rewrite decrypt_unreached_ratchet by exact E.
        repeat split; discriminate.
Qed.

(** C4, as the code has it.  An operation that returns the error value
    leaves [received_message] and the identifier of [alice_identity_key]
    as they were.  It leaves the ratchet as it was unless the error comes
    out of the ratchet's own [encrypt], [decrypt] or
    [decrypt_max_plaintext_length].  It leaves the three handshake
    identifiers as they were unless it is a [new_inbound_session] failing
    with [BAD_MESSAGE_KEY_ID]; outside these two cases the session differs
    from the one before in [last_error] only.  A [new_inbound_session]
    that fails with [BAD_MESSAGE_KEY_ID] returns with the envelope's
    identity key, base key and one-time-key id stored in the session. *)
Theorem error_leaves_state (s : Session RS) (op : Operation) :
  snd (perform s op) = Some SIZE_ERROR ->
  let after := fst (perform s op) in
  received_message after = received_message s
  /\ identity_id (alice_identity_key after)
     = identity_id (alice_identity_key s)
  /\ (reaches_ratchet s op = false -> ratchet after = ratchet s)
  /\ (is_new_inbound_session op = false
      \/ last_error after <> BAD_MESSAGE_KEY_ID ->
      handshake_identifiers after = handshake_identifiers s)
  /\ (reaches_ratchet s op = false ->
      is_new_inbound_session op = false
      \/ last_error after <> BAD_MESSAGE_KEY_ID ->
      after = set_last_error (last_error after) s)
  /\ (forall (a : Account) (m : list byte),
         op = NewInboundSession a m ->
         last_error after = BAD_MESSAGE_KEY_ID ->
         let reader := decode_one_time_key_message m in
         handshake_identifiers after
         = (memcpy (public_key (identity_public (alice_identity_key s)))
                   (field_bytes (reader_identity_key reader)) 32,
            memcpy (public_key (alice_base_key s))
                   (field_bytes (reader_base_key reader)) 32,
            one_time_key_id reader)).
Proof.
  intros H after.
  destruct (error_cases s op H)
    as [(Hr & E & Hf)|[(Hr & Hn & E1 & E2 & E3 & E4)|(a & m & Hop & Hr & E)]].
  - (* only [last_error] differs *)
    fold after in E, Hf.
    assert (F : forall (X : Type) (f : Session RS -> X),
               (forall e s0, f (set_last_error e s0) = f s0) ->
               f after = f s)
      by (intros X f Hf'; rewrite E; apply Hf').
    repeat split.
    + apply (F _ received_message). reflexivity.
    + apply (F _ (fun s0 => identity_id (alice_identity_key s0))).
      reflexivity.
    + intros _. apply (F _ ratchet). reflexivity.
    + intros _. apply (F _ handshake_identifiers). reflexivity.
    + intros _ _. exact E.
    + intros a m Hop Hk reader. subst op.
      rewrite Hf in Hk by reflexivity. discriminate Hk.
  - (* the ratchet raised the error *)
    fold after in E1, E2, E3, E4.
    repeat split.
    + exact E1.
    + now rewrite E2.
    + intros Hr'. rewrite Hr in Hr'. discriminate Hr'.
    + intros _. unfold handshake_identifiers. now rewrite E2, E3, E4.
    + intros Hr'. rewrite Hr in Hr'. discriminate Hr'.
    + intros a m Hop. subst op. discriminate Hn.
  - (* the one-time key was not found *)
    fold after in E.
    repeat split.
    + now rewrite E.
    + now rewrite E.
    + intros _. now rewrite E.
    + intros [Hn|Hk].
      * subst op. discriminate Hn.
      * rewrite E in Hk. now contradiction Hk.
    + intros _ [Hn|Hk].
      * subst op. discriminate Hn.
      * rewrite E in Hk. now contradiction Hk.
    + intros a' m' Hop' _ reader. subst op. injection Hop' as <- <-.
      rewrite E. reflexivity.
Qed.

End ErrorsAndState.

Section LastError.
Context {RS : Type} {crypto : Crypto} {account_ops : AccountOps}
        {codec : Codec} {ratchet_ops : RatchetOps RS}.

(** C9, as the code has it.  An operation that does not return the error
    value does not write [last_error]: after a successful
    [new_outbound_session], [new_inbound_session], [encrypt], [decrypt]
    or [decrypt_max_plaintext_length] (and after the queries, which
    cannot fail) [last_error] is what it was before the call, an earlier
    error included. *)
Theorem success_leaves_last_error (s : Session RS) (op : Operation) :
  snd (perform s op) <> Some SIZE_ERROR ->
  last_error (fst (perform s op)) = last_error s.
Proof.
  assert (neq : forall n : size_t, Some n <> Some SIZE_ERROR ->
                                   n <> SIZE_ERROR)
    by (intros n H E; apply H; now rewrite E).
  destruct op as [a k o r|a m|c].
  - rewrite perform_new_outbound_session. cbn [fst snd]. intros H.
    apply new_outbound_session_success_last_error, neq, H.
  - rewrite perform_new_inbound_session. cbn [fst snd]. intros H.
    apply new_inbound_session_success_last_error, neq, H.
  - cbn [perform fst snd].
    destruct c as [|n| |m|p r m|t m|t m p];
      cbn [call_result after_call]; intros H; try reflexivity.
    + now rewrite matches_inbound_session_frame.
    + apply encrypt_success_last_error, neq, H.
    + apply decrypt_max_plaintext_length_success_last_error, neq, H.
    + apply decrypt_success_last_error, neq, H.
Qed.

End LastError.

(** ** Secrets left in local buffers *)

Section Zeroisation.
Context {RS : Type} {crypto : Crypto} {account_ops : AccountOps}
        {codec : Codec} {ratchet_ops : RatchetOps RS}.

Lemma unset_bytes_all_zero (b : list byte) : all_zero (unset_bytes b).
Proof.
  unfold all_zero, unset_bytes. now rewrite zeros_length.
Qed.

(** On every return of [new_outbound_session] the secret-holding locals
    either do not exist yet or have been overwritten with zeros. *)
Lemma new_outbound_session_zeroises (s : Session RS) (local_account : Account)
  (identity_key : Curve25519PublicKey) (one_time_key : RemoteKey)
  (random : list byte) :
  match snd (new_outbound_session_exit s local_account identity_key
                                       one_time_key random) with
  | None => True
  | Some locals =>
      all_zero (private_key (out_base_key locals))
      /\ all_zero (private_key (out_ratchet_key locals))
      /\ all_zero (out_shared_secret locals)
  end.
Proof.
  unfold new_outbound_session_exit.
  destruct (len random <? new_outbound_session_random_length);
    cbn [snd]; [exact I|].
  cbn [out_base_key out_ratchet_key out_shared_secret unset_key_pair
       private_key].
  repeat split; apply unset_bytes_all_zero.
Qed.

(** When [new_inbound_session] returns 0, its [shared_secret] array still
    holds the 96 bytes it gave to the ratchet. *)
Lemma new_inbound_session_keeps_secret (s : Session RS)
  (local_account : Account) (one_time_key_message : list byte) :
  snd (fst (new_inbound_session_exit s local_account one_time_key_message))
  <> SIZE_ERROR ->
  exists (locals : InboundLocals) (ratchet_key : Curve25519PublicKey),
    snd (new_inbound_session_exit s local_account one_time_key_message)
    = Some locals
    /\ ratchet
         (fst (fst (new_inbound_session_exit s local_account
                                             one_time_key_message)))
       = initialise_as_bob (ratchet s) (firstn 96 (in_shared_secret locals))
                           ratchet_key.
Proof.
  unfold new_inbound_session_exit.
  destruct (negb (check_message_fields _));
    [intros H; session_simpl; size_error_cases|].
  destruct (_ || _); [intros H; session_simpl; size_error_cases|].
  session_simpl.
  destruct (lookup_key _ _); intros H; session_simpl; size_error_cases.
  eexists. eexists. split; reflexivity.
Qed.

End Zeroisation.

(** ** Persistence *)

Section PickleRoundTrip.
Context {RS : Type}
        {pickle_bool : Pickle bool}
        {pickle_uint32 : Pickle uint32_t}
        {pickle_public_key : Pickle Curve25519PublicKey}
        {pickle_ratchet : Pickle (Ratchet RS)}.
Variable ratchet_well_typed : Ratchet RS -> Prop.
Context (laws_bool : PickleLaws pickle_bool (fun _ => True))
        (laws_uint32 : PickleLaws pickle_uint32 uint32_range)
        (laws_public_key : PickleLaws pickle_public_key key_sized)
        (laws_ratchet : PickleLaws pickle_ratchet ratchet_well_typed).

Lemma size_wrap_small (n : Z) : 0 <= n < size_modulus -> size_wrap n = n.
Proof. intros H. unfold size_wrap. now apply Z.mod_small. Qed.

Lemma len_app (a b : list byte) : len (a ++ b) = len a + len b.
Proof. unfold len. rewrite length_app. lia. Qed.

Lemma len_nonneg (a : list byte) : 0 <= len a.
Proof. unfold len. lia. Qed.

(** C3.  Pickling a session writes, in this order, [received_message],
    the id and the key of [alice_identity_key], [alice_base_key],
    [bob_one_time_key_id] and the ratchet.  Unpickling those bytes into
    any session object gives every pickled member the value it has in
    [S] and consumes exactly the bytes written; [last_error], which is
    transient and not part of the pickle, is that of the object unpickled
    into, so the result is [S] itself when the two agree on it.
    [pickle_length] is the number of bytes [pickle] writes.  Assumed: the
    contract of the primitive picklers and of the ratchet's, and the
    ranges the C++ types give the members of [S]. *)
Theorem pickle_round_trip (S target : Session RS) (rest : list byte) :
  session_well_typed ratchet_well_typed S ->
  pickle_session S
  = pickle (received_message S)
    ++ pickle (T := uint32_t) (identity_id (alice_identity_key S))
    ++ pickle (identity_public (alice_identity_key S))
    ++ pickle (alice_base_key S)
    ++ pickle (T := uint32_t) (bob_one_time_key_id S)
    ++ pickle (ratchet S)
  /\ unpickle_session (pickle_session S ++ rest) target
     = (rest, set_last_error (last_error target) S)
  /\ (last_error target = last_error S ->
      unpickle_session (pickle_session S ++ rest) target = (rest, S))
  /\ (len (pickle_session S) < size_modulus ->
      pickle_length_session S = len (pickle_session S)).
Proof.
  intros (Hid & Hik & Hbk & Hbid & Hr).
  assert (Order : pickle_session S
                  = pickle (received_message S)
                    ++ pickle (T := uint32_t)
                         (identity_id (alice_identity_key S))
                    ++ pickle (identity_public (alice_identity_key S))
                    ++ pickle (alice_base_key S)
                    ++ pickle (T := uint32_t) (bob_one_time_key_id S)
                    ++ pickle (ratchet S)).
  { unfold pickle_session. cbn [app]. now rewrite <- !app_assoc. }
  assert (Round : unpickle_session (pickle_session S ++ rest) target
                  = (rest, set_last_error (last_error target) S)).
  { rewrite Order. unfold unpickle_session. rewrite <- !app_assoc.
    rewrite (unpickle_pickle (PickleLaws := laws_bool)) by exact I.
    session_simpl.
    rewrite (unpickle_pickle (PickleLaws := laws_uint32)) by exact Hid.
    session_simpl.
    rewrite (unpickle_pickle (PickleLaws := laws_public_key)) by exact Hik.
    session_simpl.
    rewrite (unpickle_pickle (PickleLaws := laws_public_key)) by exact Hbk.
    session_simpl.
    rewrite (unpickle_pickle (PickleLaws := laws_uint32)) by exact Hbid.
    session_simpl.
    rewrite (unpickle_pickle (PickleLaws := laws_ratchet)) by exact Hr.
    unfold set_last_error. destruct S as [r e b [i k] bk bid]. reflexivity. }
  split; [exact Order|]. split; [exact Round|]. split.
  - intros E. rewrite Round, E. now rewrite set_last_error_same.
  - rewrite Order. unfold pickle_length_session.
    rewrite !(pickle_length_pickle (PickleLaws := laws_bool)) by exact I.
    rewrite (pickle_length_pickle (PickleLaws := laws_uint32) _ Hid).
    rewrite (pickle_length_pickle (PickleLaws := laws_public_key) _ Hik).
    rewrite (pickle_length_pickle (PickleLaws := laws_public_key) _ Hbk).
    rewrite (pickle_length_pickle (PickleLaws := laws_uint32) _ Hbid).
    rewrite (pickle_length_pickle (PickleLaws := laws_ratchet) _ Hr).
    rewrite !len_app. intros Hfit. cbn zeta.
    set (l1 := len (pickle (received_message S))) in *.
    set (l2 := len (pickle (T := uint32_t)
                      (identity_id (alice_identity_key S)))) in *.
    set (l3 := len (pickle (identity_public (alice_identity_key S)))) in *.
    set (l4 := len (pickle (alice_base_key S))) in *.
    set (l5 := len (pickle (T := uint32_t) (bob_one_time_key_id S))) in *.
    set (l6 := len (pickle (ratchet S))) in *.
    assert (0 <= l1 /\ 0 <= l2 /\ 0 <= l3 /\ 0 <= l4 /\ 0 <= l5 /\ 0 <= l6)
      as (? & ? & ? & ? & ? & ?)
      by (repeat split; apply len_nonneg).
    rewrite (size_wrap_small (0 + l1)) by lia.
    rewrite (size_wrap_small (0 + l1 + l2)) by lia.
    rewrite (size_wrap_small (0 + l1 + l2 + l3)) by lia.
    rewrite (size_wrap_small (0 + l1 + l2 + l3 + l4)) by lia.
    rewrite (size_wrap_small (0 + l1 + l2 + l3 + l4 + l5)) by lia.
    rewrite (size_wrap_small (0 + l1 + l2 + l3 + l4 + l5 + l6)) by lia.
    lia.
Qed.

End PickleRoundTrip.

(** ** Newly initiated sessions and the size of the key arrays *)

Section Birth.
Context {RS : Type} {crypto : Crypto} {account_ops : AccountOps}
        {codec : Codec} {ratchet_ops : RatchetOps RS}.

Lemma Session_new_has_not_received (k : IdentityKey)
  (b : Curve25519PublicKey) :
  received_message (Session_new (RS := RS) k b) = false
  /\ last_error (Session_new (RS := RS) k b) = SUCCESS
  /\ bob_one_time_key_id (Session_new (RS := RS) k b) = 0.
Proof. repeat split. Qed.

(** A session that has not received a message has not received one after
    either initiation, whether the initiation succeeds or fails. *)
Lemma new_outbound_session_has_not_received (s : Session RS)
  (local_account : Account) (identity_key : Curve25519PublicKey)
  (one_time_key : RemoteKey) (random : list byte) :
  received_message s = false ->
  received_message
    (fst (new_outbound_session s local_account identity_key one_time_key
                               random))
  = false.
Proof.
  intros H. unfold new_outbound_session, new_outbound_session_exit.
  run_operation; [exact H|reflexivity].
Qed.

Lemma new_inbound_session_received_message (s : Session RS)
  (local_account : Account) (one_time_key_message : list byte) :
  received_message
    (fst (new_inbound_session s local_account one_time_key_message))
  = received_message s.
Proof.
  unfold new_inbound_session, new_inbound_session_exit.
  destruct (negb (check_message_fields _)); [reflexivity|].
  destruct (_ || _); [reflexivity|].
  session_simpl. destruct (lookup_key _ _); reflexivity.
Qed.

(** The two key arrays of a session keep their 32 bytes through every
    operation, given that the account's identity key and the keys made by
    [generate_key] have theirs. *)
Lemma perform_keeps_keys_sized (s : Session RS) (op : Operation) :
  (forall random : list byte, key_sized (generate_key random)) ->
  (forall a : Account, key_sized (local_key (account_identity_key a))) ->
  session_keys_sized s ->
  session_keys_sized (fst (perform s op)).
Proof.
  intros Hgen Hacc [Hi Hb]. destruct op as [a k o r|a m|c].
  - rewrite perform_new_outbound_session. cbn [fst].
    unfold new_outbound_session, new_outbound_session_exit.
    run_operation; split; try assumption.
    + apply Hacc.
    + apply Hgen.
  - rewrite perform_new_inbound_session. cbn [fst].
    unfold new_inbound_session, new_inbound_session_exit.
    destruct (check_message_fields _) eqn:Hcheck; cbn [negb];
      [|split; assumption].
    destruct (_ || _); [split; assumption|].
    unfold check_message_fields in Hcheck. cbn [andb] in Hcheck.
    repeat (apply andb_prop in Hcheck; destruct Hcheck as [Hcheck ?]).
    destruct (field_length_32 (reader_identity_key
                                 (decode_one_time_key_message m)))
      as (ib & Ei & Li); try assumption.
    destruct (field_length_32 (reader_base_key
                                 (decode_one_time_key_message m)))
      as (bb & Eb & Lb); try assumption.
    assert (K : session_keys_sized
                  (set_alice_base_key
                     {| public_key :=
                          memcpy (public_key (alice_base_key s)) bb 32 |}
                     (set_alice_identity_public
                        {| public_key :=
                             memcpy
                               (public_key
                                  (identity_public (alice_identity_key s)))
                               ib 32 |} s))).
    { split; unfold key_sized; session_simpl; cbn [public_key];
        apply memcpy_length; try assumption; lia. }
    session_simpl. rewrite Ei, Eb. cbn [field_bytes].
    destruct (lookup_key _ _); exact K.
  - cbn [perform fst].
    destruct (after_call_handshake s c) as (E1 & E2 & _).
    split; [rewrite E1|rewrite E2]; assumption.
Qed.

End Birth.

(** ** The example collaborators keep their contracts *)

Module ExampleFacts.
Import Example.

Lemma fit_length (n : nat) (l : list byte) : List.length (fit n l) = n.
Proof.
  unfold fit. rewrite length_firstn, length_app, zeros_length. lia.
Qed.

Lemma shared_secret_32 : shared_secret_is_32_bytes.
Proof. intros our_key their_key. apply fit_length. Qed.

Lemma Z_of_byte_of_Z (n : Z) : Z_of_byte (byte_of_Z n) = n mod 256.
Proof.
  unfold Z_of_byte, byte_of_Z.
  pose proof (Z.mod_pos_bound n 256 ltac:(lia)) as B.
  destruct (Byte.of_N (Z.to_N (n mod 256))) as [b|] eqn:E.
  - apply Byte.to_of_N in E. rewrite E. lia.
  - apply Byte.of_N_None_iff in E. lia.
Qed.

Lemma uint32_round_trip (n v0 : uint32_t) (rest : list byte) :
  uint32_range n ->
  unpickle (T := uint32_t) (uint32_bytes n ++ rest) v0 = (rest, n).
Proof.
  intros [Hlo Hhi]. cbn [unpickle pickle_uint32 uint32_bytes app].
  rewrite !Z_of_byte_of_Z. f_equal.
  pose proof (Z.div_mod n 256 ltac:(lia)) as D0.
  pose proof (Z.div_mod (n / 256) 256 ltac:(lia)) as D1.
  pose proof (Z.div_mod (n / 256 / 256) 256 ltac:(lia)) as D2.
  assert (B : 0 <= n / 256 / 256 / 256 < 256).
  { change (2 ^ 32) with (256 * (256 * (256 * 256))) in Hhi.
    split.
    - repeat apply Z.div_pos; lia.
    - repeat (apply Z.div_lt_upper_bound; [lia|]). lia. }
  rewrite (Z.mod_small (n / 256 / 256 / 256)) by exact B.
  lia.
Qed.

Lemma bool_pickler_laws : PickleLaws pickle_bool (fun _ => True).
Proof.
  split.
  - intros v v0 rest _. now destruct v.
  - reflexivity.
Qed.

Lemma uint32_pickler_laws : PickleLaws pickle_uint32 uint32_range.
Proof.
  split.
  - intros v v0 rest H. now apply uint32_round_trip.
  - reflexivity.
Qed.

Lemma public_key_pickler_laws : PickleLaws pickle_public_key key_sized.
Proof.
  split.
  - intros [k] v0 rest H. unfold key_sized in H. cbn in H.
    cbn [unpickle pickle pickle_public_key public_key].
    assert (E : (32 <=? List.length (k ++ rest))%nat = true)
      by (apply Nat.leb_le; rewrite length_app; lia).
    rewrite E. f_equal.
    + rewrite skipn_app, skipn_all2, H by lia. reflexivity.
    + f_equal. rewrite firstn_app, firstn_all2, H by lia.
      cbn. apply app_nil_r.
  - intros [k] H. unfold key_sized in H. cbn in H.
    cbn [pickle_length pickle pickle_public_key public_key].
    unfold len. rewrite H. reflexivity.
Qed.

Lemma error_byte_round_trip (e : ErrorCode) : byte_error (error_byte e) = e.
Proof. now destruct e. Qed.

Lemma ratchet_pickler_laws : PickleLaws pickle_ratchet example_ratchet_well_typed.
Proof.
  split.
  - intros [[sec key n] e] v0 rest (Hs & Hk & Hn). cbn in Hs, Hk, Hn.
    cbn [unpickle pickle pickle_ratchet].
    unfold unpickle_example_ratchet, pickle_example_ratchet.
    cbn [ratchet_state ratchet_last_error secret current_ratchet_key
         counter].
    set (tail := uint32_bytes n ++ [error_byte e] ++ rest).
    assert (Ht : List.length tail = (5 + List.length rest)%nat)
      by (unfold tail; rewrite !length_app; reflexivity).
    replace ((sec ++ key ++ uint32_bytes n ++ [error_byte e]) ++ rest)
      with (sec ++ key ++ tail)
      by (unfold tail; now rewrite <- !app_assoc).
    assert (E : (133 <=? List.length (sec ++ key ++ tail))%nat = true)
      by (apply Nat.leb_le; rewrite !length_app; lia).
    rewrite E.
    assert (S128 : skipn 128 (sec ++ key ++ tail) = tail).
    { rewrite app_assoc, skipn_app, skipn_all2
        by (rewrite length_app; lia).
      rewrite length_app, Hs, Hk. reflexivity. }
    rewrite S128. unfold tail at 1.
    rewrite (uint32_round_trip n 0 ([error_byte e] ++ rest) Hn).
    cbn [app skipn hd]. rewrite error_byte_round_trip.
    f_equal. f_equal. f_equal.
    + rewrite firstn_app, firstn_all2, Hs by lia. cbn. apply app_nil_r.
    + unfold region. rewrite skipn_app, skipn_all2, Hs by lia.
      cbn [app Nat.sub skipn].
      rewrite firstn_app, firstn_all2, Hk by lia. cbn. apply app_nil_r.
  - intros [[sec key n] e] (Hs & Hk & Hn). cbn in Hs, Hk, Hn.
    cbn [pickle_length pickle pickle_ratchet].
    unfold pickle_example_ratchet, len.
    cbn [ratchet_state ratchet_last_error secret current_ratchet_key
         counter].
    rewrite !length_app, Hs, Hk. reflexivity.
Qed.

End ExampleFacts.

(** ** The theorems at the concrete exchange *)

Module Runs.
Import Example.

Example alice_first_message :
  encrypt alice hello [] (zeros 114)
  = (fst (fst (encrypt alice hello [] (zeros 114))), 45, prekey_message).
Proof. vm_compute. reflexivity. Qed.

Example bob_reads_hello :
  snd (fst (decrypt bob PRE_KEY prekey_message (zeros 5))) = 5
  /\ snd (decrypt bob PRE_KEY prekey_message (zeros 5)) = hello.
Proof. vm_compute. split; reflexivity. Qed.

Lemma handshake_secret_order_witness :
  exists shared_secret : list byte,
    ratchet alice
    = initialise_as_alice (ratchet fresh) shared_secret (key_of x05)
    /\ ratchet bob
       = initialise_as_bob (ratchet fresh) shared_secret
                           {| public_key := repeat x05 32 |}
    /\ shared_secret = repeat x06 32 ++ repeat x0e 32 ++ repeat x09 32.
Proof.
  destruct (handshake_secret_order
              (account_ops := account_ops)
              fresh fresh alice_account bob_account bob_one_time_key
              alice_random prekey_message (repeat x05 32))
    as (shared_secret & _ & HA & _ & HB & _ & HS & _).
  - exact ExampleFacts.shared_secret_32.
  - vm_compute. reflexivity.
  - vm_compute. reflexivity.
  - vm_compute. reflexivity.
  - vm_compute. discriminate.
  - split; vm_compute; reflexivity.
  - vm_compute. reflexivity.
  - vm_compute. reflexivity.
  - vm_compute. reflexivity.
  - vm_compute. reflexivity.
  - vm_compute. reflexivity.
  - vm_compute. reflexivity.
  - vm_compute. reflexivity.
  - vm_compute. reflexivity.
  - vm_compute. reflexivity.
  - exists shared_secret. split; [exact HA|]. split; [exact HB|].
    rewrite HS. vm_compute. reflexivity.
Defined.

Lemma new_outbound_session_not_enough_random_witness :
  len (zeros 63) < 64
  /\ snd (new_outbound_session alice alice_account (key_of x0b)
            {| remote_id := 42; remote_key := key_of x0c |} (zeros 63))
     = 2 ^ 64 - 1
  /\ last_error
       (fst (new_outbound_session alice alice_account (key_of x0b)
               {| remote_id := 42; remote_key := key_of x0c |} (zeros 63)))
     = NOT_ENOUGH_RANDOM.
Proof.
  assert (H : len (zeros 63) < 64) by (vm_compute; reflexivity).
  split; [exact H|].
  destruct (new_outbound_session_not_enough_random
              (account_ops := account_ops)
              alice alice_account (key_of x0b)
              {| remote_id := 42; remote_key := key_of x0c |} (zeros 63) H)
    as (R & E & _).
  split; [exact R|exact E].
Defined.

Lemma encrypt_output_buffer_too_small_witness :
  len (zeros 113) < encrypt_message_length alice (len hello)
  /\ ratchet (fst (fst (encrypt alice hello [] (zeros 113)))) = ratchet alice.
Proof.
  assert (H : len (zeros 113) < encrypt_message_length alice (len hello))
    by (vm_compute; reflexivity).
  split; [exact H|].
  exact (proj1 (proj2 (proj2
           (encrypt_output_buffer_too_small alice hello [] (zeros 113) H)))).
Defined.

Lemma matches_inbound_session_spec_witness :
  session_keys_sized bob
  /\ fst (matches_inbound_session bob prekey_message) = bob.
Proof.
  assert (H : session_keys_sized bob) by (split; vm_compute; reflexivity).
  split; [exact H|].
  exact (proj1 (matches_inbound_session_spec bob prekey_message H)).
Defined.

Lemma message_type_latch_witness :
  received_message bob = false
  /\ encrypt_message_type
       (after_calls bob [CallDecrypt PRE_KEY prekey_message (zeros 5);
                         CallEncrypt hello [] (zeros 45)])
     = MESSAGE.
Proof.
  assert (H : received_message bob = false) by (vm_compute; reflexivity).
  split; [exact H|].
  destruct (message_type_latch
              bob [CallDecrypt PRE_KEY prekey_message (zeros 5)] H)
    as (_ & L & _).
  assert (D : some_decrypt_succeeded
                bob [CallDecrypt PRE_KEY prekey_message (zeros 5)] = true)
    by (vm_compute; reflexivity).
  exact (proj2 (L D) [CallEncrypt hello [] (zeros 45)]).
Defined.

Lemma error_leaves_state_witness :
  snd (perform fresh (NewInboundSession alice_account prekey_message))
  = Some SIZE_ERROR
  /\ received_message
       (fst (perform fresh (NewInboundSession alice_account prekey_message)))
     = received_message fresh.
Proof.
  assert (H : snd (perform fresh
                     (NewInboundSession alice_account prekey_message))
              = Some SIZE_ERROR)
    by (vm_compute; reflexivity).
  split; [exact H|].
  exact (proj1 (error_leaves_state
                  fresh (NewInboundSession alice_account prekey_message) H)).
Defined.

Lemma success_leaves_last_error_witness :
  snd (perform failed_once
         (NewOutboundSession alice_account (key_of x0b)
            {| remote_id := 42; remote_key := key_of x0c |} alice_random))
  <> Some SIZE_ERROR
  /\ last_error
       (fst (perform failed_once
               (NewOutboundSession alice_account (key_of x0b)
                  {| remote_id := 42; remote_key := key_of x0c |}
                  alice_random)))
     = last_error failed_once.
Proof.
  assert (H : snd (perform failed_once
                     (NewOutboundSession alice_account (key_of x0b)
                        {| remote_id := 42; remote_key := key_of x0c |}
                        alice_random))
              <> Some SIZE_ERROR)
    by (vm_compute; discriminate).
  split; [exact H|].
  exact (success_leaves_last_error failed_once _ H).
Defined.

Lemma pickle_round_trip_witness :
  session_well_typed example_ratchet_well_typed alice
  /\ unpickle_session (pickle_session alice ++ [x2a]) fresh = ([x2a], alice)
  /\ pickle_length_session alice = len (pickle_session alice).
Proof.
  assert (H : session_well_typed example_ratchet_well_typed alice).
  { unfold session_well_typed, example_ratchet_well_typed, uint32_range,
      key_sized.
    repeat split; vm_compute; try reflexivity; discriminate. }
  split; [exact H|].
  destruct (pickle_round_trip
              example_ratchet_well_typed
              ExampleFacts.bool_pickler_laws ExampleFacts.uint32_pickler_laws
              ExampleFacts.public_key_pickler_laws
              ExampleFacts.ratchet_pickler_laws
              alice fresh [x2a] H)
    as (_ & _ & R & L).
  split.
  - apply R. vm_compute. reflexivity.
  - apply L. vm_compute. reflexivity.
Defined.

(** Against C4 as stated: Alice's first message given to
    [new_inbound_session] of an account without the one-time key 42.
    The call returns the error value with [BAD_MESSAGE_KEY_ID], and the
    session's [alice_identity_key], [alice_base_key] and
    [bob_one_time_key_id] are no longer what they were. *)
Lemma unknown_key_id_overwrites_identifiers :
  snd (new_inbound_session fresh alice_account prekey_message) = SIZE_ERROR
  /\ last_error (fst (new_inbound_session fresh alice_account prekey_message))
     = BAD_MESSAGE_KEY_ID
  /\ alice_identity_key
       (fst (new_inbound_session fresh alice_account prekey_message))
     <> alice_identity_key fresh
  /\ alice_base_key
       (fst (new_inbound_session fresh alice_account prekey_message))
     <> alice_base_key fresh
  /\ bob_one_time_key_id
       (fst (new_inbound_session fresh alice_account prekey_message))
     <> bob_one_time_key_id fresh.
Proof.
  vm_compute. repeat split; discriminate.
Qed.

(** Against C9 as stated: a session whose [last_error] is
    [NOT_ENOUGH_RANDOM] completes [new_outbound_session] with 64 random
    bytes; the call returns 0 and [last_error] is still
    [NOT_ENOUGH_RANDOM], not [SUCCESS]. *)
Lemma success_does_not_clear_last_error :
  last_error failed_once = NOT_ENOUGH_RANDOM
  /\ snd (new_outbound_session failed_once alice_account (key_of x0b)
            {| remote_id := 42; remote_key := key_of x0c |} alice_random)
     = 0
  /\ last_error
       (fst (new_outbound_session failed_once alice_account (key_of x0b)
               {| remote_id := 42; remote_key := key_of x0c |} alice_random))
     <> SUCCESS.
Proof.
  vm_compute. repeat split; discriminate.
Qed.

(** C10 on the code.  Bob's successful [new_inbound_session] on Alice's
    first message returns 0 while its local [shared_secret] array still
    holds the 96 secret bytes: the function has no [olm::unset] before its
    [return], unlike [new_outbound_session]. *)
Theorem new_inbound_session_leaves_secret_behind :
  fst (new_inbound_session_exit fresh bob_account prekey_message) = (bob, 0)
  /\ snd (new_inbound_session_exit fresh bob_account prekey_message)
     = Some {| in_shared_secret :=
                 repeat x06 32 ++ repeat x0e 32 ++ repeat x09 32 |}
  /\ ~ all_zero (repeat x06 32 ++ repeat x0e 32 ++ repeat x09 32).
Proof.
  split; [vm_compute; reflexivity|].
  split; [vm_compute; reflexivity|].
  vm_compute. discriminate.
Qed.

End Runs.

(** * Further properties of the session operations *)

(** ** What initiation reads and when it succeeds *)

Lemma memcmp_prefix (n : nat) (a rest : list byte) :
  List.length a = n -> memcmp a (a ++ rest) n = 0.
Proof.
  revert a. induction n as [|n IH]; intros a Ha.
  - now destruct a.
  - destruct a as [|x a]; [discriminate|].
    cbn [memcmp app]. rewrite byte_eqb_refl. apply IH.
    cbn in Ha. lia.
Qed.

Lemma region_firstn (l : list byte) (off n m : nat) :
  (off + n <= m)%nat -> region (firstn m l) off n = region l off n.
Proof.
  intros H. unfold region.
  rewrite skipn_firstn_comm, firstn_firstn.
  now replace (Nat.min n (m - off)) with n by lia.
Qed.

Lemma check_message_fields_true (reader : PreKeyMessageReader) :
  check_message_fields reader = true <->
  exists identity_bytes base_bytes body : list byte,
    reader_identity_key reader = Some identity_bytes
    /\ List.length identity_bytes = 32%nat
    /\ reader_base_key reader = Some base_bytes
    /\ List.length base_bytes = 32%nat
    /\ reader_message reader = Some body
    /\ has_one_time_key_id reader = true.
Proof.
  unfold check_message_fields. cbn [andb]. split.
  - intros H.
    repeat (apply andb_prop in H; destruct H as [H ?]).
    destruct (field_length_32 (reader_identity_key reader))
      as (ib & Ei & Li); try assumption.
    destruct (field_length_32 (reader_base_key reader))
      as (bb & Eb & Lb); try assumption.
    destruct (reader_message reader) as [body|] eqn:Em; [|discriminate].
    exists ib, bb, body. repeat split; assumption.
  - intros (ib & bb & body & Ei & Li & Eb & Lb & Em & Hid).
    rewrite Ei, Eb, Em, Hid. cbn. unfold len, KEY_LENGTH.
    now rewrite Li, Lb.
Qed.

(** Settles the propositional cases left once an initiation has been run
    down one of its paths. *)
Ltac outcome_cases :=
  repeat (intro || split);
  repeat match goal with
         | H : _ /\ _ |- _ => destruct H
         | H : 0 = SIZE_ERROR |- _ => destruct (zero_is_not_SIZE_ERROR H)
         | H : SIZE_ERROR = 0 |- _ =>
             destruct (zero_is_not_SIZE_ERROR (eq_sym H))
         end;
  try discriminate; try congruence; try tauto.

Section InitiationOutcome.
Context {RS : Type} {crypto : Crypto} {account_ops : AccountOps}
        {codec : Codec} {ratchet_ops : RatchetOps RS}.

(** X1.  [new_outbound_session] reads the first 64 bytes of the
    randomness and nothing beyond them: given at least 64 bytes, the
    session it leaves and the value it returns are those it gives on the
    first 64 bytes alone. *)
Theorem new_outbound_session_reads_64_bytes
  (s : Session RS) (local_account : Account)
  (identity_key : Curve25519PublicKey) (one_time_key : RemoteKey)
  (random : list byte) :
  new_outbound_session_random_length <= len random ->
  new_outbound_session s local_account identity_key one_time_key random
  = new_outbound_session s local_account identity_key one_time_key
                         (firstn 64 random).
Proof.
  intros H. rewrite random_length_value in H. unfold len in H.
  rewrite !new_outbound_session_success.
  - cbn zeta. rewrite !region_firstn by lia. reflexivity.
  - rewrite random_length_value. unfold len. rewrite length_firstn. lia.
  - rewrite random_length_value. unfold len. lia.
Qed.

Lemma inbound_message_well_formed_checks (s : Session RS) (m : list byte) :
  inbound_message_well_formed s m <->
  check_message_fields (decode_one_time_key_message m) = true
  /\ (negb (non_null
              (reader_ratchet_key
                 (decode_message
                    (field_bytes
                       (reader_message (decode_one_time_key_message m)))
                    (mac_length (ratchet s)))))
      || negb (field_length
                 (reader_ratchet_key
                    (decode_message
                       (field_bytes
                          (reader_message (decode_one_time_key_message m)))
                       (mac_length (ratchet s))))
               =? KEY_LENGTH)) = false.
Proof.
  unfold inbound_message_well_formed. cbn zeta.
  rewrite check_message_fields_true. split.
  - intros (ib & bb & body & rk & Ei & Li & Eb & Lb & Em & Hid & Er & Lr).
    split.
    + exists ib, bb, body. repeat split; assumption.
    + rewrite Em. cbn [field_bytes]. rewrite Er. cbn.
      unfold len, KEY_LENGTH. now rewrite Lr.
  - intros [(ib & bb & body & Ei & Li & Eb & Lb & Em & Hid) H].
    rewrite Em in H. cbn [field_bytes] in H.
    apply orb_false_elim in H. destruct H as [H1 H2].
    apply negb_false_iff in H1, H2.
    destruct (field_length_32 _ H1 H2) as (rk & Er & Lr).
    exists ib, bb, body, rk. repeat split; assumption.
Qed.

(** Getting to the key lookup means the message passed both format
    checks. *)
Lemma new_inbound_session_past_checks
  (s : Session RS) (local_account : Account)
  (one_time_key_message : list byte) :
  let after := new_inbound_session s local_account one_time_key_message in
  snd after = 0
  \/ (snd after = SIZE_ERROR /\ last_error (fst after) = BAD_MESSAGE_KEY_ID) ->
  inbound_message_well_formed s one_time_key_message.
Proof.
  intros after. subst after.
  rewrite inbound_message_well_formed_checks.
  unfold new_inbound_session, new_inbound_session_exit.
  destruct (check_message_fields _); cbn [negb];
    [destruct (_ || _)|]; session_simpl;
    intros [H|[H1 H2]]; outcome_cases.
Qed.

(** X2.  The three outcomes of [new_inbound_session].  It returns 0
    exactly when the message is well formed (32-byte identity and base
    keys, a message, a one-time-key id, a 32-byte ratchet key inside the
    message) and the account holds the one-time key the envelope names; it
    returns the error value with [BAD_MESSAGE_KEY_ID] exactly when the
    message is well formed and the account does not hold that key; and
    with [BAD_MESSAGE_FORMAT] exactly when the message is not well formed.
    The key is looked up under the id of the envelope, whatever id the
    session held. *)
Theorem new_inbound_session_outcome
  (s : Session RS) (local_account : Account)
  (one_time_key_message : list byte) :
  let reader := decode_one_time_key_message one_time_key_message in
  let after := new_inbound_session s local_account one_time_key_message in
  (snd after = 0 <->
   inbound_message_well_formed s one_time_key_message
   /\ lookup_key local_account (one_time_key_id reader) <> None)
  /\ (snd after = SIZE_ERROR /\ last_error (fst after) = BAD_MESSAGE_KEY_ID
      <-> inbound_message_well_formed s one_time_key_message
          /\ lookup_key local_account (one_time_key_id reader) = None)
  /\ (snd after = SIZE_ERROR /\ last_error (fst after) = BAD_MESSAGE_FORMAT
      <-> ~ inbound_message_well_formed s one_time_key_message).
Proof.
  intros reader after. subst after.
  rewrite inbound_message_well_formed_checks. fold reader.
  unfold new_inbound_session, new_inbound_session_exit. fold reader.
  destruct (check_message_fields reader); cbn [negb];
    [destruct (_ || _); session_simpl;
     [|destruct (lookup_key local_account (one_time_key_id reader))]|];
    session_simpl; outcome_cases.
Qed.

End InitiationOutcome.

(** ** Matching, decrypting and re-initiating *)

Section Matching.
Context {RS : Type} {crypto : Crypto} {account_ops : AccountOps}
        {codec : Codec} {ratchet_ops : RatchetOps RS}.

(** X3.  A session matches the prekey message it was initiated from: once
    [new_inbound_session] has returned 0 on a message,
    [matches_inbound_session] answers [true] on that message.  The same
    holds when the call got as far as the key lookup and failed with
    [BAD_MESSAGE_KEY_ID], the identifiers being stored by then. *)
Theorem inbound_session_matches_its_message
  (s : Session RS) (local_account : Account)
  (one_time_key_message : list byte) :
  let after := new_inbound_session s local_account one_time_key_message in
  snd after = 0
  \/ (snd after = SIZE_ERROR /\ last_error (fst after) = BAD_MESSAGE_KEY_ID) ->
  snd (matches_inbound_session (fst after) one_time_key_message) = true.
Proof.
  intros after H.
  assert (W : inbound_message_well_formed s one_time_key_message)
    by (apply (new_inbound_session_past_checks s local_account); exact H).
  assert (C : check_message_fields
                (decode_one_time_key_message one_time_key_message) = true)
    by (apply inbound_message_well_formed_checks in W; apply W).
  destruct W as (ib & bb & body & rk & Ei & Li & Eb & Lb & Em & Hid & Er & Lr).
  set (old_identity := skipn 32 (public_key
                                   (identity_public (alice_identity_key s)))).
  set (old_base := skipn 32 (public_key (alice_base_key s))).
  assert (E : public_key (identity_public (alice_identity_key (fst after)))
              = ib ++ old_identity
              /\ public_key (alice_base_key (fst after)) = bb ++ old_base
              /\ bob_one_time_key_id (fst after)
                 = one_time_key_id
                     (decode_one_time_key_message one_time_key_message)).
  { subst after old_identity old_base.
    unfold new_inbound_session, new_inbound_session_exit.
    assert (Hk : (len rk =? KEY_LENGTH) = true)
      by (unfold len, KEY_LENGTH; now rewrite Lr).
    rewrite C, Em. cbn [negb field_bytes]. rewrite Er.
    cbn [non_null negb orb field_length]. rewrite Hk. cbn [negb].
    session_simpl. rewrite Ei, Eb. cbn [field_bytes].
    unfold memcpy.
    rewrite (firstn_all2 (n := 32) ib), (firstn_all2 (n := 32) bb) by lia.
    destruct (lookup_key _ _); repeat split. }
  destruct E as (E1 & E2 & E3).
  unfold matches_inbound_session. rewrite C. cbn [negb snd andb].
  rewrite Ei, Eb, E1, E2, E3. cbn [field_bytes].
  change (Z.to_nat KEY_LENGTH) with 32%nat.
  rewrite !memcmp_prefix by assumption.
  rewrite !Z.eqb_refl. reflexivity.
Qed.

End Matching.

Section MatchingOverTime.
Context {RS : Type} {codec : Codec} {ratchet_ops : RatchetOps RS}.

Lemma matches_by_identifiers (s1 s2 : Session RS) (message : list byte) :
  handshake_identifiers s1 = handshake_identifiers s2 ->
  snd (matches_inbound_session s1 message)
  = snd (matches_inbound_session s2 message).
Proof.
  unfold handshake_identifiers. intros H. injection H as E1 E2 E3.
  unfold matches_inbound_session.
  destruct (negb (check_message_fields _)); cbn [snd]; [reflexivity|].
  now rewrite E1, E2, E3.
Qed.

Lemma after_calls_identifiers (s : Session RS) (calls : list Call) :
  handshake_identifiers (after_calls s calls) = handshake_identifiers s.
Proof.
  revert s. induction calls as [|c calls IH]; intros s; cbn [after_calls].
  - reflexivity.
  - rewrite IH. unfold handshake_identifiers.
    destruct (after_call_handshake s c) as (-> & -> & ->). reflexivity.
Qed.

(** X4.  The answer of [matches_inbound_session] on a message is decided
    by the three handshake identifiers alone, so it is the same before
    and after any sequence of [encrypt], [decrypt] and the other calls on
    the session, whatever these did to the ratchet, to [received_message]
    and to [last_error]. *)
Theorem matching_is_stable (s : Session RS) (calls : list Call)
  (message : list byte) :
  snd (matches_inbound_session (after_calls s calls) message)
  = snd (matches_inbound_session s message).
Proof.
  apply matches_by_identifiers, after_calls_identifiers.
Qed.

(** X5.  Decrypting a prekey message is decrypting the message inside its
    envelope: when the envelope decodes to a message [body], [decrypt] and
    [decrypt_max_plaintext_length] with type [PRE_KEY] do exactly what
    they do with type [MESSAGE] on [body].  The envelope's identity key,
    base key and one-time-key id are not looked at. *)
Theorem decrypt_pre_key_is_decrypt_of_body
  (s : Session RS) (message body plaintext : list byte) :
  reader_message (decode_one_time_key_message message) = Some body ->
  decrypt s PRE_KEY message plaintext = decrypt s MESSAGE body plaintext
  /\ decrypt_max_plaintext_length s PRE_KEY message
     = decrypt_max_plaintext_length s MESSAGE body.
Proof.
  intros H. unfold decrypt, decrypt_max_plaintext_length, message_body_of.
  rewrite H. split; reflexivity.
Qed.


End MatchingOverTime.

(** ** The ratchet's error field *)

Section RatchetErrorField.
Context {RS : Type} {codec : Codec} {ratchet_ops : RatchetOps RS}.



End RatchetErrorField.

(** ** Initiating a session that is already in use *)

Section Reinitiation.
Context {RS : Type} {crypto : Crypto} {account_ops : AccountOps}
        {codec : Codec} {ratchet_ops : RatchetOps RS}.

(** X7.  The two initiations treat the members they do not derive from
    their input differently.  A successful [new_outbound_session] sets
    [received_message] to false, so the session reports [PRE_KEY] again
    even if it had received a message.  [new_inbound_session] writes
    neither [received_message] nor the id of [alice_identity_key] on any
    of its paths: the message type stays what it was, and on a session
    just constructed the id is still the value the constructor left
    there. *)
Theorem initiation_and_unset_members
  (s : Session RS) (local_account : Account)
  (identity_key : Curve25519PublicKey) (one_time_key : RemoteKey)
  (random one_time_key_message : list byte)
  (indeterminate_identity_key : IdentityKey)
  (indeterminate_base_key : Curve25519PublicKey) :
  (new_outbound_session_random_length <= len random ->
   encrypt_message_type
     (fst (new_outbound_session s local_account identity_key one_time_key
                                random))
   = PRE_KEY)
  /\ encrypt_message_type
       (fst (new_inbound_session s local_account one_time_key_message))
     = encrypt_message_type s
  /\ identity_id
       (alice_identity_key
          (fst (new_inbound_session s local_account one_time_key_message)))
     = identity_id (alice_identity_key s)
  /\ identity_id
       (alice_identity_key
          (fst (new_inbound_session
                  (Session_new indeterminate_identity_key
                               indeterminate_base_key)
                  local_account one_time_key_message)))
     = identity_id indeterminate_identity_key.
Proof.
  assert (I : forall s0 : Session RS,
             identity_id
               (alice_identity_key
                  (fst (new_inbound_session s0 local_account
                                            one_time_key_message)))
             = identity_id (alice_identity_key s0)).
  { intros s0. unfold new_inbound_session, new_inbound_session_exit.
    destruct (negb (check_message_fields _)); [reflexivity|].
    destruct (_ || _); [reflexivity|].
    session_simpl. destruct (lookup_key _ _); reflexivity. }
  split; [|split; [|split]].
  - intros H. rewrite new_outbound_session_success by exact H. reflexivity.
  - unfold encrypt_message_type.
    now rewrite new_inbound_session_received_message.
  - apply I.
  - rewrite I. reflexivity.
Qed.

Lemma perform_keeps_keys_sized_with (s : Session RS) (op : Operation) :
  (forall random : list byte, key_sized (generate_key random)) ->
  operation_account_sized op ->
  session_keys_sized s ->
  session_keys_sized (fst (perform s op)).
Proof.
  intros Hgen Hacc [Hi Hb]. destruct op as [a k o r|a m|c].
  - rewrite perform_new_outbound_session. cbn [fst].
    unfold new_outbound_session, new_outbound_session_exit.
    run_operation; split; try assumption. apply Hgen.
  - rewrite perform_new_inbound_session. cbn [fst].
    unfold new_inbound_session, new_inbound_session_exit.
    destruct (check_message_fields _) eqn:Hcheck; cbn [negb];
      [|split; assumption].
    destruct (_ || _); [split; assumption|].
    apply check_message_fields_true in Hcheck.
    destruct Hcheck as (ib & bb & body & Ei & Li & Eb & Lb & _).
    session_simpl. rewrite Ei, Eb. cbn [field_bytes].
    assert (K : forall (r : Ratchet RS) (e : ErrorCode),
               session_keys_sized
                 {| ratchet := r;
                    last_error := e;
                    received_message := received_message s;
                    alice_identity_key :=
                      {| identity_id := identity_id (alice_identity_key s);
                         identity_public :=
                           {| public_key :=
                                memcpy
                                  (public_key
                                     (identity_public (alice_identity_key s)))
                                  ib 32 |} |};
                    alice_base_key :=
                      {| public_key :=
                           memcpy (public_key (alice_base_key s)) bb 32 |};
                    bob_one_time_key_id :=
                      one_time_key_id (decode_one_time_key_message m) |}).
    { intros r e. split; unfold key_sized; session_simpl; cbn [public_key];
        apply memcpy_length; try assumption; lia. }
    destruct (lookup_key _ _); apply K.
  - cbn [perform fst].
    destruct (after_call_handshake s c) as (E1 & E2 & _).
    split; [rewrite E1|rewrite E2]; assumption.
Qed.

(** X12.  The two key arrays of a session hold 32 bytes after any
    sequence of operations, initiations and failed calls included, given
    that they do at the start, that the keys made by [generate_key] do,
    and that the identity key of each account given to
    [new_outbound_session] does. *)
Theorem key_arrays_keep_their_size (s : Session RS) (ops : list Operation) :
  (forall random : list byte, key_sized (generate_key random)) ->
  Forall operation_account_sized ops ->
  session_keys_sized s ->
  session_keys_sized (perform_all s ops).
Proof.
  intros Hgen Hacc. revert s.
  induction Hacc as [|op ops Hop Hops IH]; intros s H; cbn [perform_all].
  - exact H.
  - apply IH. now apply perform_keeps_keys_sized_with.
Qed.

End Reinitiation.

(** ** What the pickle holds *)

Section PickleContents.
Context {RS : Type}
        {pickle_bool : Pickle bool}
        {pickle_uint32 : Pickle uint32_t}
        {pickle_public_key : Pickle Curve25519PublicKey}
        {pickle_ratchet : Pickle (Ratchet RS)}.

(** X8.  [last_error] is outside the pickle in both directions.  The
    bytes [pickle] writes and the length [pickle_length] returns do not
    depend on it, and [unpickle] never writes it: whatever bytes are
    read, malformed or cut short, the object unpickled into keeps its
    [last_error]. *)
Theorem last_error_is_not_pickled
  (s target : Session RS) (e : ErrorCode) (bytes : list byte) :
  pickle_session (set_last_error e s) = pickle_session s
  /\ pickle_length_session (set_last_error e s) = pickle_length_session s
  /\ last_error (snd (unpickle_session bytes target)) = last_error target.
Proof.
  split; [reflexivity|]. split; [reflexivity|].
  unfold unpickle_session. run_operation. reflexivity.
Qed.

Variable ratchet_well_typed : Ratchet RS -> Prop.
Context (laws_bool : PickleLaws pickle_bool (fun _ => True))
        (laws_uint32 : PickleLaws pickle_uint32 uint32_range)
        (laws_public_key : PickleLaws pickle_public_key key_sized)
        (laws_ratchet : PickleLaws pickle_ratchet ratchet_well_typed).

Lemma unpickle_pickle_session (S target : Session RS) (rest : list byte) :
  session_well_typed ratchet_well_typed S ->
  unpickle_session (pickle_session S ++ rest) target
  = (rest, set_last_error (last_error target) S).
Proof.
  intros (Hid & Hik & Hbk & Hbid & Hr).
  unfold pickle_session, unpickle_session. cbn [app].
  rewrite <- !app_assoc.
  rewrite (unpickle_pickle (PickleLaws := laws_bool)) by exact I.
  session_simpl.
  rewrite (unpickle_pickle (PickleLaws := laws_uint32)) by exact Hid.
  session_simpl.
  rewrite (unpickle_pickle (PickleLaws := laws_public_key)) by exact Hik.
  session_simpl.
  rewrite (unpickle_pickle (PickleLaws := laws_public_key)) by exact Hbk.
  session_simpl.
  rewrite (unpickle_pickle (PickleLaws := laws_uint32)) by exact Hbid.
  session_simpl.
  rewrite (unpickle_pickle (PickleLaws := laws_ratchet)) by exact Hr.
  unfold set_last_error. destruct S as [r e b [i k] bk bid]. reflexivity.
Qed.

(** X9.  A pickle determines the session and where it ends.  If the
    pickles of two sessions, each followed by arbitrary bytes, are the
    same byte string, then the bytes that follow are the same and the
    sessions agree in every member except possibly [last_error].
    Assumed as for the round trip: the contract of the primitive picklers
    and the ranges of the C++ types. *)
Theorem pickle_is_self_delimiting
  (S1 S2 : Session RS) (rest1 rest2 : list byte) :
  session_well_typed ratchet_well_typed S1 ->
  session_well_typed ratchet_well_typed S2 ->
  pickle_session S1 ++ rest1 = pickle_session S2 ++ rest2 ->
  rest1 = rest2 /\ S1 = set_last_error (last_error S1) S2.
Proof.
  intros W1 W2 E.
  pose proof (unpickle_pickle_session S1 S1 rest1 W1) as R1.
  pose proof (unpickle_pickle_session S2 S1 rest2 W2) as R2.
  rewrite E, R2 in R1.
  pose proof (f_equal fst R1) as Er. pose proof (f_equal snd R1) as Es.
  cbn [fst snd] in Er, Es. rewrite set_last_error_same in Es.
  split; [now symmetry|now symmetry].
Qed.

End PickleContents.

(** ** The envelope written by [encrypt] *)

Lemma nth_error_region (buf : list byte) (off n j : nat) :
  nth_error (region buf off n) j
  = if (j <? n)%nat then nth_error buf (off + j) else None.
Proof.
  unfold region. rewrite nth_error_firstn, nth_error_skipn. reflexivity.
Qed.

Lemma nth_error_store (buf : list byte) (off : nat) (data : list byte)
  (j : nat) :
  nth_error (store buf off data) j
  = if (j <? List.length buf)%nat then
      if ((off <=? j) && (j <? off + List.length data))%nat
      then nth_error data (j - off)
      else nth_error buf j
    else None.
Proof.
  unfold store. rewrite nth_error_firstn.
  destruct (Nat.ltb_spec j (List.length buf)) as [Hj|Hj]; [|reflexivity].
  rewrite nth_error_app, length_firstn.
  destruct (Nat.ltb_spec j (Nat.min off (List.length buf))) as [H1|H1].
  - rewrite nth_error_firstn.
    destruct (Nat.ltb_spec j off) as [H2|H2]; [|lia].
    destruct (Nat.leb_spec off j) as [H3|H3]; [lia|]. reflexivity.
  - assert (Hmin : Nat.min off (List.length buf) = off) by lia.
    rewrite Hmin in *.
    destruct (Nat.leb_spec off j) as [H3|H3]; [|lia]. cbn [andb].
    rewrite nth_error_app.
    destruct (Nat.ltb_spec (j - off) (List.length data)) as [H4|H4];
      destruct (Nat.ltb_spec j (off + List.length data)) as [H5|H5];
      try lia; [reflexivity|].
    rewrite nth_error_skipn. f_equal. lia.
Qed.

(** A write is read back from where it went. *)
Lemma region_store_same (buf : list byte) (off : nat) (data : list byte) :
  (off + List.length data <= List.length buf)%nat ->
  region (store buf off data) off (List.length data) = data.
Proof.
  intros H. apply nth_error_ext. intros j.
  rewrite nth_error_region, nth_error_store.
  destruct (Nat.ltb_spec j (List.length data)) as [H1|H1].
  - destruct (Nat.ltb_spec (off + j) (List.length buf)) as [H2|H2]; [|lia].
    destruct (Nat.leb_spec off (off + j)) as [H3|H3]; [|lia].
    destruct (Nat.ltb_spec (off + j) (off + List.length data)) as [H4|H4];
      [|lia].
    cbn [andb]. f_equal. lia.
  - symmetry. now apply nth_error_None.
Qed.

(** A write leaves the bytes outside it as they were. *)
Lemma region_store_other (buf : list byte) (off : nat) (data : list byte)
  (i n : nat) :
  (off + List.length data <= i \/ i + n <= off)%nat ->
  region (store buf off data) i n = region buf i n.
Proof.
  intros H. apply nth_error_ext. intros j.
  rewrite !nth_error_region, nth_error_store.
  destruct (Nat.ltb_spec j n) as [H1|H1]; [|reflexivity].
  destruct (Nat.ltb_spec (i + j) (List.length buf)) as [H2|H2].
  - destruct (Nat.leb_spec off (i + j)) as [H3|H3];
      destruct (Nat.ltb_spec (i + j) (off + List.length data)) as [H4|H4];
      cbn [andb]; try reflexivity. lia.
  - symmetry. now apply nth_error_None.
Qed.

Lemma region_length_le (buf : list byte) (off n : nat) :
  (List.length (region buf off n) <= n)%nat.
Proof. unfold region. rewrite length_firstn. lia. Qed.

Section Envelope.
Context {RS : Type} {codec : Codec} {ratchet_ops : RatchetOps RS}.

(** X13.  Before a session has received a message, the message written
    by [encrypt] carries the session's handshake keys: the 32 bytes at the
    identity-key slot of the envelope are the public key of
    [alice_identity_key] and the 32 bytes at the base-key slot are the
    public key of [alice_base_key], whatever the ratchet writes.  Hence
    the session matches its own prekey messages: if the decoder reads the
    two keys back from those slots and reads the session's one-time-key
    id and a message, [matches_inbound_session] answers [true] on the
    message written.  Assumed of the encoder: the two key slots lie
    inside the output buffer and neither overlaps the other or the
    message slot; assumed of the ratchet: it writes inside the region it
    is given. *)
Theorem prekey_encrypt_writes_handshake_keys
  (s : Session RS) (plaintext random message output : list byte)
  (writer : PreKeyMessageWriter) :
  let body_length := encrypt_output_length (ratchet s) (len plaintext) in
  let identity_slot := writer_identity_key writer in
  let base_slot := writer_base_key writer in
  let message_slot := writer_message writer in
  received_message s = false ->
  encrypt_message_length s (len plaintext) <= len message ->
  session_keys_sized s ->
  ratchet_encrypt_keeps_output_size ->
  encode_one_time_key_message PROTOCOL_VERSION (bob_one_time_key_id s)
    KEY_LENGTH KEY_LENGTH body_length message
  = (writer, output) ->
  (identity_slot + 32 <= List.length output)%nat ->
  (base_slot + 32 <= List.length output)%nat ->
  (identity_slot + 32 <= base_slot \/ base_slot + 32 <= identity_slot)%nat ->
  (identity_slot + 32 <= message_slot
   \/ message_slot + Z.to_nat body_length <= identity_slot)%nat ->
  (base_slot + 32 <= message_slot
   \/ message_slot + Z.to_nat body_length <= base_slot)%nat ->
  let sent := snd (encrypt s plaintext random message) in
  region sent identity_slot 32
  = public_key (identity_public (alice_identity_key s))
  /\ region sent base_slot 32 = public_key (alice_base_key s)
  /\ (let reader := decode_one_time_key_message sent in
      reader_identity_key reader = Some (region sent identity_slot 32) ->
      reader_base_key reader = Some (region sent base_slot 32) ->
      has_one_time_key_id reader = true ->
      one_time_key_id reader = bob_one_time_key_id s ->
      non_null (reader_message reader) = true ->
      snd (matches_inbound_session s sent) = true).
Proof.
  intros body_length identity_slot base_slot message_slot
         Hrm Hlen [Hki Hkb] Hsize Henc Hi Hb Hib Him Hbm sent.
  unfold key_sized in Hki, Hkb.
  enough (Slots : region sent identity_slot 32
                  = public_key (identity_public (alice_identity_key s))
                  /\ region sent base_slot 32
                     = public_key (alice_base_key s)).
  { destruct Slots as [Si Sb]. split; [exact Si|]. split; [exact Sb|].
    intros reader Ri Rb Rh Ro Rm. rewrite Si in Ri. rewrite Sb in Rb.
    unfold matches_inbound_session. fold reader.
    assert (C : check_message_fields reader = true).
    { apply check_message_fields_true.
      destruct (reader_message reader) as [body|]; [|discriminate Rm].
      eexists _, _, body. repeat split; eassumption. }
    rewrite C, Ri, Rb, Ro. cbn [negb snd andb field_bytes].
    change (Z.to_nat KEY_LENGTH) with 32%nat.
    rewrite <- (app_nil_r (public_key
                             (identity_public (alice_identity_key s)))) at 2.
    rewrite <- (app_nil_r (public_key (alice_base_key s))) at 2.
    rewrite !memcmp_prefix by assumption.
    rewrite !Z.eqb_refl. reflexivity. }
  subst sent.
  unfold encrypt.
  destruct (len message <? encrypt_message_length s (len plaintext)) eqn:E;
    [apply Z.ltb_lt in E; lia|].
  rewrite Hrm. fold body_length. rewrite Henc.
  fold identity_slot base_slot message_slot.
  change (Z.to_nat KEY_LENGTH) with 32%nat.
  rewrite !firstn_all2 by lia.
  set (pki := public_key (identity_public (alice_identity_key s))) in *.
  set (pkb := public_key (alice_base_key s)) in *.
  set (with_identity := store output identity_slot pki).
  set (with_keys := store with_identity base_slot pkb).
  assert (Li : List.length with_identity = List.length output)
    by (apply store_length; lia).
  pose proof (Hsize (ratchet s) plaintext random
                (region with_keys message_slot (Z.to_nat body_length)))
    as Hbody.
  pose proof (region_length_le with_keys message_slot (Z.to_nat body_length))
    as Hregion.
  destruct (ratchet_encrypt (ratchet s) plaintext random
              (region with_keys message_slot (Z.to_nat body_length)))
    as [[r' k] body].
  cbn [snd] in Hbody.
  assert (Final : forall s1 s2 : Session RS,
             snd (if k =? SIZE_ERROR
                  then (s1, k, store with_keys message_slot body)
                  else (s2, k, store with_keys message_slot body))
             = store with_keys message_slot body)
    by (intros; now destruct (k =? SIZE_ERROR)).
  rewrite Final. split.
  - rewrite region_store_other by lia.
    unfold with_keys. rewrite region_store_other by lia.
    unfold with_identity.
    pose proof (region_store_same output identity_slot pki) as R.
    rewrite Hki in R. apply R. lia.
  - rewrite region_store_other by lia.
    unfold with_keys.
    pose proof (region_store_same with_identity base_slot pkb) as R.
    rewrite Hkb in R. apply R. lia.
Qed.

End Envelope.

(** ** [last_error] is never read *)

Section LastErrorUnread.
Context {RS : Type} {crypto : Crypto} {account_ops : AccountOps}
        {codec : Codec} {ratchet_ops : RatchetOps RS}.

Lemma same_but_last_error_fields (s1 s2 : Session RS) :
  same_but_last_error s1 s2 ->
  exists e : ErrorCode, s1 = set_last_error e s2.
Proof.
  unfold same_but_last_error, set_last_error. intros H.
  exists (last_error s1). destruct s1, s2. cbn in *.
  injection H as -> -> -> -> ->. reflexivity.
Qed.

Lemma perform_ignores_last_error (s : Session RS) (e : ErrorCode)
  (op : Operation) :
  returned (set_last_error e s) op = returned s op
  /\ same_but_last_error (fst (perform (set_last_error e s) op))
                         (fst (perform s op)).
Proof.
  unfold same_but_last_error.
  destruct op as [a k o r|a m|c].
  - rewrite !perform_new_outbound_session. cbn [returned fst].
    unfold new_outbound_session, new_outbound_session_exit.
    run_operation; split; reflexivity.
  - rewrite !perform_new_inbound_session. cbn [returned fst].
    unfold new_inbound_session, new_inbound_session_exit.
    session_simpl.
    destruct (negb (check_message_fields _)); [split; reflexivity|].
    destruct (_ || _); [split; reflexivity|].
    session_simpl. destruct (lookup_key _ _); split; reflexivity.
  - cbn [perform fst].
    destruct c as [|n| |m|p r m|t m|t m p]; cbn [returned after_call];
      try (split; reflexivity).
    + unfold matches_inbound_session. session_simpl.
      run_operation; split; reflexivity.
    + unfold encrypt, encrypt_message_length. session_simpl.
      run_operation; split; reflexivity.
    + unfold decrypt_max_plaintext_length. session_simpl.
      run_operation; split; reflexivity.
    + unfold decrypt. session_simpl.
      run_operation; split; reflexivity.
Qed.

Lemma sequences_ignore_last_error (s1 s2 : Session RS)
  (ops : list Operation) :
  same_but_last_error s1 s2 ->
  returned_all s1 ops = returned_all s2 ops
  /\ same_but_last_error (perform_all s1 ops) (perform_all s2 ops).
Proof.
  revert s1 s2. induction ops as [|op ops IH]; intros s1 s2 H;
    cbn [returned_all perform_all].
  - split; [reflexivity|exact H].
  - destruct (same_but_last_error_fields s1 s2 H) as [e ->].
    destruct (perform_ignores_last_error s2 e op) as [R A].
    rewrite R. destruct (IH _ _ A) as [R' A'].
    rewrite R'. split; [reflexivity|exact A'].
Qed.

(** X14.  No operation reads [last_error].  Two sessions that agree in
    every member except possibly [last_error] return the same values and
    write the same bytes on every sequence of operations, and agree in
    the same way afterwards. *)
Theorem last_error_is_never_read (s1 s2 : Session RS) (ops : list Operation) :
  same_but_last_error s1 s2 ->
  returned_all s1 ops = returned_all s2 ops
  /\ same_but_last_error (perform_all s1 ops) (perform_all s2 ops).
Proof.
  revert s1 s2. induction ops as [|op ops IH]; intros s1 s2 H;
    cbn [returned_all perform_all].
  - split; [reflexivity|exact H].
  - destruct (same_but_last_error_fields s1 s2 H) as [e ->].
    destruct (perform_ignores_last_error s2 e op) as [R A].
    destruct (IH _ _ A) as [R' A'].
    split; [now rewrite R, R'|exact A'].
Qed.

End LastErrorUnread.

Section Restored.
Context {RS : Type} {crypto : Crypto} {account_ops : AccountOps}
        {codec : Codec} {ratchet_ops : RatchetOps RS}
        {pickle_bool : Pickle bool}
        {pickle_uint32 : Pickle uint32_t}
        {pickle_public_key : Pickle Curve25519PublicKey}
        {pickle_ratchet : Pickle (Ratchet RS)}.
Variable ratchet_well_typed : Ratchet RS -> Prop.
Context (laws_bool : PickleLaws pickle_bool (fun _ => True))
        (laws_uint32 : PickleLaws pickle_uint32 uint32_range)
        (laws_public_key : PickleLaws pickle_public_key key_sized)
        (laws_ratchet : PickleLaws pickle_ratchet ratchet_well_typed).

(** X15.  A restored session carries on as the pickled one.  Unpickle the
    pickle of [S] into any session object: on every sequence of
    operations the restored session returns the same values and writes
    the same bytes as [S] does.  Assumed as for the round trip: the
    contract of the primitive picklers and the ranges of the C++
    types. *)
Theorem restored_session_behaves_alike
  (S target : Session RS) (rest : list byte) (ops : list Operation) :
  session_well_typed ratchet_well_typed S ->
  returned_all (snd (unpickle_session (pickle_session S ++ rest) target)) ops
  = returned_all S ops.
Proof.
  intros W.
  rewrite (unpickle_pickle_session ratchet_well_typed laws_bool laws_uint32
             laws_public_key laws_ratchet S target rest W).
  cbn [snd]. apply sequences_ignore_last_error.
  unfold same_but_last_error. reflexivity.
Qed.

End Restored.

(** ** The locals of [new_outbound_session] *)

Section OutboundLocals.
Context {RS : Type} {crypto : Crypto} {account_ops : AccountOps}
        {codec : Codec} {ratchet_ops : RatchetOps RS}.

(** X11.  [new_outbound_session] leaves no secret in its local buffers.
    When it returns 0 its [base_key] and [ratchet_key] pairs and its
    96-byte [shared_secret] array hold zero bytes only; when it returns
    the error value it has not created them. *)
Theorem outbound_locals_are_zeroised
  (s : Session RS) (local_account : Account)
  (identity_key : Curve25519PublicKey) (one_time_key : RemoteKey)
  (random : list byte) :
  let exit :=
    new_outbound_session_exit s local_account identity_key one_time_key
                              random in
  (snd (fst exit) = SIZE_ERROR /\ snd exit = None)
  \/ (snd (fst exit) = 0
      /\ exists locals : OutboundLocals,
           snd exit = Some locals
           /\ all_zero (private_key (out_base_key locals))
           /\ all_zero (public_key (out_base_key locals))
           /\ all_zero (private_key (out_ratchet_key locals))
           /\ all_zero (public_key (out_ratchet_key locals))
           /\ out_shared_secret locals = zeros 96).
Proof.
  intros exit. subst exit. unfold new_outbound_session_exit.
  destruct (len random <? new_outbound_session_random_length);
    cbn [fst snd]; [left; now split|].
  right. split; [reflexivity|].
  eexists. split; [reflexivity|].
  cbn [out_base_key out_ratchet_key out_shared_secret unset_key_pair
       private_key public_key key_pair_public].
  repeat split; try apply unset_bytes_all_zero.
  unfold unset_bytes, outbound_shared_secret. cbn zeta.
  match goal with
  | |- zeros (List.length (store (store (store ?z 0 ?d1) 32 ?d2) 64 ?d3))
       = _ =>
      assert (L1 : List.length (store z 0 d1) = 96%nat)
        by (rewrite store_length; rewrite zeros_length; lia);
      assert (L2 : List.length (store (store z 0 d1) 32 d2) = 96%nat)
        by (rewrite store_length; rewrite L1; lia);
      assert (L3 : List.length (store (store (store z 0 d1) 32 d2) 64 d3)
                   = 96%nat)
        by (rewrite store_length; rewrite L2; lia);
      rewrite L3
  end.
  reflexivity.
Qed.

End OutboundLocals.

(** ** The example ratchet keeps the contracts assumed above *)

Module ExampleContracts.
Import Example.

Lemma generated_keys_sized (random : list byte) :
  key_sized (generate_key random).
Proof. apply ExampleFacts.fit_length. Qed.

Lemma encrypt_keeps_output_size : ratchet_encrypt_keeps_output_size.
Proof.
  intros r plaintext random output.
  cbn [ratchet_encrypt ratchet_ops]. unfold example_encrypt.
  destruct (len output <? _); cbn [snd]; [reflexivity|].
  apply store_length. lia.
Qed.


End ExampleContracts.

(** ** The further properties at the concrete exchange *)

Module MoreRuns.
Import Example.

Lemma new_outbound_session_reads_64_bytes_witness :
  new_outbound_session_random_length <= len (repeat x05 70)
  /\ new_outbound_session fresh alice_account (key_of x0b)
       {| remote_id := 42; remote_key := key_of x0c |} (repeat x05 70)
     = (alice, 0).
Proof.
  assert (H : new_outbound_session_random_length <= len (repeat x05 70))
    by (vm_compute; discriminate).
  split; [exact H|].
  rewrite (new_outbound_session_reads_64_bytes
             (account_ops := account_ops)
             fresh alice_account (key_of x0b)
             {| remote_id := 42; remote_key := key_of x0c |}
             (repeat x05 70) H).
  vm_compute. reflexivity.
Defined.

Lemma inbound_session_matches_its_message_witness :
  snd (new_inbound_session fresh bob_account prekey_message) = 0
  /\ snd (matches_inbound_session bob prekey_message) = true.
Proof.
  assert (H : snd (new_inbound_session fresh bob_account prekey_message) = 0)
    by (vm_compute; reflexivity).
  split; [exact H|].
  exact (inbound_session_matches_its_message
           (account_ops := account_ops)
           fresh bob_account prekey_message (or_introl H)).
Defined.

Lemma decrypt_pre_key_is_decrypt_of_body_witness :
  reader_message (decode_one_time_key_message prekey_message)
  = Some (repeat x05 32 ++ hello ++ repeat x06 8)
  /\ decrypt bob PRE_KEY prekey_message (zeros 5)
     = decrypt bob MESSAGE (repeat x05 32 ++ hello ++ repeat x06 8) (zeros 5).
Proof.
  assert (H : reader_message (decode_one_time_key_message prekey_message)
              = Some (repeat x05 32 ++ hello ++ repeat x06 8))
    by (vm_compute; reflexivity).
  split; [exact H|].
  exact (proj1 (decrypt_pre_key_is_decrypt_of_body
                  bob prekey_message _ (zeros 5) H)).
Defined.


Lemma pickle_is_self_delimiting_witness :
  session_well_typed example_ratchet_well_typed alice
  /\ [x2a] = [x2a]
  /\ alice = set_last_error (last_error alice) alice.
Proof.
  assert (H : session_well_typed example_ratchet_well_typed alice).
  { unfold session_well_typed, example_ratchet_well_typed, uint32_range,
      key_sized.
    repeat split; vm_compute; try reflexivity; discriminate. }
  split; [exact H|].
  exact (pickle_is_self_delimiting
           example_ratchet_well_typed
           ExampleFacts.bool_pickler_laws ExampleFacts.uint32_pickler_laws
           ExampleFacts.public_key_pickler_laws
           ExampleFacts.ratchet_pickler_laws
           alice alice [x2a] [x2a] H H eq_refl).
Defined.


Lemma key_arrays_keep_their_size_witness :
  session_keys_sized fresh
  /\ session_keys_sized
       (perform_all fresh
          [NewOutboundSession alice_account (key_of x0b)
             {| remote_id := 42; remote_key := key_of x0c |} alice_random;
           NewInboundSession bob_account prekey_message]).
Proof.
  assert (H : session_keys_sized fresh) by (split; vm_compute; reflexivity).
  split; [exact H|].
  apply (key_arrays_keep_their_size (account_ops := account_ops)).
  - exact ExampleContracts.generated_keys_sized.
  - repeat constructor; vm_compute; reflexivity.
  - exact H.
Defined.

Lemma prekey_encrypt_writes_handshake_keys_witness :
  received_message alice = false
  /\ region (snd (encrypt alice hello [] (zeros 114))) 36 32 = repeat x0a 32
  /\ region (snd (encrypt alice hello [] (zeros 114))) 3 32 = repeat x05 32.
Proof.
  assert (H : received_message alice = false) by (vm_compute; reflexivity).
  split; [exact H|].
  destruct (prekey_encrypt_writes_handshake_keys
              alice hello [] (zeros 114)
              (snd (encode_one_time_key_message
                      PROTOCOL_VERSION 42 KEY_LENGTH KEY_LENGTH 45
                      (zeros 114)))
              (fst (encode_one_time_key_message
                      PROTOCOL_VERSION 42 KEY_LENGTH KEY_LENGTH 45
                      (zeros 114))))
    as (Hi & Hb & _).
  - exact H.
  - vm_compute. discriminate.
  - split; vm_compute; reflexivity.
  - exact ExampleContracts.encrypt_keeps_output_size.
  - vm_compute. reflexivity.
  - vm_compute. lia.
  - vm_compute. lia.
  - right. vm_compute. lia.
  - left. vm_compute. lia.
  - left. vm_compute. lia.
  - split; [exact Hi|exact Hb].
Defined.

Lemma last_error_is_never_read_witness :
  same_but_last_error failed_once fresh
  /\ returned_all failed_once
       [NewOutboundSession alice_account (key_of x0b)
          {| remote_id := 42; remote_key := key_of x0c |} alice_random;
        LiveCall (CallEncrypt hello [] (zeros 114))]
     = returned_all fresh
         [NewOutboundSession alice_account (key_of x0b)
            {| remote_id := 42; remote_key := key_of x0c |} alice_random;
          LiveCall (CallEncrypt hello [] (zeros 114))].
Proof.
  assert (H : same_but_last_error failed_once fresh)
    by (vm_compute; reflexivity).
  split; [exact H|].
  exact (proj1 (last_error_is_never_read
                  (account_ops := account_ops) failed_once fresh _ H)).
Defined.

Lemma restored_session_behaves_alike_witness :
  session_well_typed example_ratchet_well_typed alice
  /\ returned_all
       (snd (unpickle_session (pickle_session alice ++ [x2a]) fresh))
       [LiveCall (CallEncrypt hello [] (zeros 114))]
     = returned_all (account_ops := account_ops) alice
         [LiveCall (CallEncrypt hello [] (zeros 114))].
Proof.
  assert (H : session_well_typed example_ratchet_well_typed alice).
  { unfold session_well_typed, example_ratchet_well_typed, uint32_range,
      key_sized.
    repeat split; vm_compute; try reflexivity; discriminate. }
  split; [exact H|].
  exact (restored_session_behaves_alike
           (account_ops := account_ops)
           example_ratchet_well_typed
           ExampleFacts.bool_pickler_laws ExampleFacts.uint32_pickler_laws
           ExampleFacts.public_key_pickler_laws
           ExampleFacts.ratchet_pickler_laws
           alice fresh [x2a] _ H).
Defined.

End MoreRuns.
